(** * Gravity simulation: the rigid body of [main.go]

    A shallow embedding of the [Object] type of [main.go] (the spec's
    Body) with its constructor [NewObject] and its two mutating methods
    [AddForce] and [Update], and of the two lines of the frame loop that
    drive them.

    Numbers are Go [float32] values.  They are modelled by the IEEE-754
    binary32 instance (24 bits of precision, infinities at exponent 128)
    of the Standard Library's [SpecFloat], with round-to-nearest-even,
    every operation rounded on its own (no fused multiply-add).  The
    carrier [spec_float] is wider than binary32; [F32.wf] tells the
    binary32 numbers apart, and the operations are shown to stay within
    them.  The second part of the file models the rest of [main.go]:
    the model matrix, the shader loader and [main] with its frame loop,
    whose calls into the window and OpenGL packages are recorded, with
    the answers of these packages as a parameter. *)

From Stdlib Require Import ZArith Bool Lia SpecFloat List String Ascii.
Import ListNotations.

Local Open Scope Z_scope.

(** ** Go's [float32] *)

Module F32.

Definition prec : Z := 24.
Definition emax : Z := 128.

Definition float32 : Type := spec_float.

(** The members of [spec_float] that are binary32 numbers: every
    value a Go [float32] variable can hold is one of them. *)
Definition wf (x : float32) : bool := valid_binary prec emax x.

Definition add : float32 -> float32 -> float32 := SFadd prec emax.
Definition mul : float32 -> float32 -> float32 := SFmul prec emax.
Definition div : float32 -> float32 -> float32 := SFdiv prec emax.
Definition neg : float32 -> float32 := SFopp.
Definition ltb : float32 -> float32 -> bool := SFltb.
Definition leb : float32 -> float32 -> bool := SFleb.
Definition eqb : float32 -> float32 -> bool := SFeqb.

(** Conversion of an integer constant. *)
Definition of_Z (z : Z) : float32 := binary_normalize prec emax z 0 false.

(** Conversion of the decimal constant [n / d]: the quotient of two
    exactly representable integers, rounded once. *)
Definition lit (n d : Z) : float32 := div (of_Z n) (of_Z d).

Definition zero : float32 := S754_zero false.
Definition one : float32 := Eval vm_compute in of_Z 1.
Definition minus_one : float32 := Eval vm_compute in of_Z (-1).
Definition nan : float32 := S754_nan.
Definition inf (s : bool) : float32 := S754_infinity s.

Definition is_nan (x : float32) : bool :=
  match x with S754_nan => true | _ => false end.

Definition is_finite (x : float32) : bool :=
  match x with S754_zero _ | S754_finite _ _ _ => true | _ => false end.

Definition is_zero (x : float32) : bool :=
  match x with S754_zero _ => true | _ => false end.

(** The same number: the same member of [spec_float], or two zeros,
    whose signs may differ. *)
Definition same (x y : float32) : Prop :=
  x = y \/ (is_zero x = true /\ is_zero y = true).

End F32.

Abbreviation float32 := F32.float32.

Declare Scope f32_scope.
Delimit Scope f32_scope with f32.
Infix "+" := F32.add : f32_scope.
Infix "*" := F32.mul : f32_scope.
Infix "/" := F32.div : f32_scope.
Notation "- x" := (F32.neg x) : f32_scope.
Infix "<?" := F32.ltb : f32_scope.
Infix "<=?" := F32.leb : f32_scope.
Infix "=?" := F32.eqb : f32_scope.

(** ** [mgl32.Vec3]: an array of three [float32]

    [main.go] imports the vector type from the package
    [github.com/go-gl/mathgl/mgl32], which is not part of the
    repository. *)

Module mgl32.

(** [type Vec3 [3]float32], with the accessors [X()], [Y()] and [Z()] of
    its elements 0, 1 and 2. *)
Record Vec3 : Type := mkVec3 { X : float32; Y : float32; Z : float32 }.

(** Modelled from the spec: [v1.Add(v2)] of the imported package, the
    vector sum of [velocity += acceleration * dt], taken component by
    component. *)
Definition Add (v1 v2 : Vec3) : Vec3 :=
  mkVec3 (X v1 + X v2)%f32 (Y v1 + Y v2)%f32 (Z v1 + Z v2)%f32.

(** Modelled from the spec: [v1.Mul(c)] of the imported package, the
    product of a vector and a scalar of [acceleration * dt], taken
    component by component. *)
Definition Mul (v1 : Vec3) (c : float32) : Vec3 :=
  mkVec3 (X v1 * c)%f32 (Y v1 * c)%f32 (Z v1 * c)%f32.

(** [v[i] = c].  The source only writes the constant index 1; Go
    refuses a constant index outside 0..2 when it compiles. *)
Definition set_at (v : Vec3) (i : nat) (c : float32) : Vec3 :=
  match i with
  | 0%nat => mkVec3 c (Y v) (Z v)
  | 1%nat => mkVec3 (X v) c (Z v)
  | 2%nat => mkVec3 (X v) (Y v) c
  | _ => v
  end.

(** The three components are binary32 numbers. *)
Definition wf (v : Vec3) : bool :=
  F32.wf (X v) && F32.wf (Y v) && F32.wf (Z v).

(** The same numbers in the three components. *)
Definition Same (v w : Vec3) : Prop :=
  F32.same (X v) (X w) /\ F32.same (Y v) (Y w) /\ F32.same (Z v) (Z w).

End mgl32.

Abbreviation Vec3 := mgl32.Vec3.
Abbreviation mkVec3 := mgl32.mkVec3.

(** ** The simulated object *)

Record Object : Type := mkObject {
  Position : Vec3;
  Velocity : Vec3;
  Mass : float32;
  Forces : Vec3;
  Elasticity : float32
}.

(** Every field holds binary32 numbers. *)
Definition wf_Object (o : Object) : bool :=
  mgl32.wf (Position o) && mgl32.wf (Velocity o) && F32.wf (Mass o)
  && mgl32.wf (Forces o) && F32.wf (Elasticity o).

(** The struct literal of [NewObject].  No argument is inspected. *)
Definition NewObject (position velocity : Vec3) (mass elasticity : float32)
  : Object :=
  {| Position := position;
     Velocity := velocity;
     Mass := mass;
     Forces := mkVec3 F32.zero F32.zero F32.zero;
     Elasticity := elasticity |}.

(** What a caller of [NewObject] receives: a [*Object], [None] being
    [nil].  The function has a single [return], of the address of the
    literal, and no [panic]. *)
Definition NewObject_ptr (position velocity : Vec3) (mass elasticity : float32)
  : option Object :=
  Some (NewObject position velocity mass elasticity).

(** ** Methods with the receiver [o *Object]

    A method body is a function from the receiver's state to a result
    and the state it leaves. *)

Definition Method (A : Type) : Type := Object -> A * Object.

Definition ret {A : Type} (a : A) : Method A := fun o => (a, o).

Definition bind {A B : Type} (m : Method A) (k : A -> Method B) : Method B :=
  fun o => let (a, o') := m o in k a o'.

Notation "x <- m ;; k" := (bind m (fun x => k))
  (at level 61, m at next level, right associativity).
Notation "m ;; k" := (bind m (fun _ => k))
  (at level 61, right associativity).

(** Reading a field of the receiver. *)
Definition load {A : Type} (field : Object -> A) : Method A :=
  fun o => (field o, o).

(** Assigning a field of the receiver. *)
Definition store_Position (p : Vec3) : Method unit :=
  fun o => (tt, mkObject p (Velocity o) (Mass o) (Forces o) (Elasticity o)).
Definition store_Velocity (v : Vec3) : Method unit :=
  fun o => (tt, mkObject (Position o) v (Mass o) (Forces o) (Elasticity o)).
Definition store_Forces (f : Vec3) : Method unit :=
  fun o => (tt, mkObject (Position o) (Velocity o) (Mass o) f (Elasticity o)).

(** The state a method leaves. *)
Definition exec {A : Type} (m : Method A) (o : Object) : Object := snd (m o).

(** [func (o *Object) AddForce(force mgl32.Vec3)] *)
Definition AddForce (force : Vec3) : Method unit :=
  forces <- load Forces ;;
  store_Forces (mgl32.Add forces force).

(** [func (o *Object) Update(dt float32)] *)
Definition Update (dt : float32) : Method unit :=
  forces <- load Forces ;;
  mass <- load Mass ;;
  let acceleration := mgl32.Mul forces (F32.one / mass)%f32 in
  velocity <- load Velocity ;;
  store_Velocity (mgl32.Add velocity (mgl32.Mul acceleration dt)) ;;
  position <- load Position ;;
  velocity <- load Velocity ;;
  store_Position (mgl32.Add position (mgl32.Mul velocity dt)) ;;
  store_Forces (mkVec3 F32.zero F32.zero F32.zero) ;;
  position <- load Position ;;
  if (mgl32.Y position <? F32.minus_one)%f32 then
    position <- load Position ;;
    store_Position (mgl32.set_at position 1 F32.minus_one) ;;
    velocity <- load Velocity ;;
    elasticity <- load Elasticity ;;
    store_Velocity
      (mgl32.set_at velocity 1 (- mgl32.Y velocity * elasticity)%f32)
  else
    ret tt.

(** ** The two physics lines of the frame loop *)

Definition timeStep : float32 := Eval vm_compute in F32.lit 1 100.

(** [-9.81], converted to [float32]. *)
Definition gravity : float32 := Eval vm_compute in F32.neg (F32.lit 981 100).

(** [object.AddForce(mgl32.Vec3{0, -9.81 * object.Mass, 0})] followed by
    [object.Update(timeStep)]. *)
Definition tick : Method unit :=
  mass <- load Mass ;;
  AddForce (mkVec3 F32.zero (gravity * mass)%f32 F32.zero) ;;
  Update timeStep.

Fixpoint ticks (n : nat) (o : Object) : Object :=
  match n with
  | O => o
  | S n' => ticks n' (exec tick o)
  end.

(** The object [main] creates:
    [NewObject(mgl32.Vec3{0, 0, 0}, mgl32.Vec3{0, 5, 0}, 1.0, 0.8)]. *)
Definition main_object : Object :=
  NewObject (mkVec3 F32.zero F32.zero F32.zero)
            (mkVec3 F32.zero (F32.of_Z 5) F32.zero)
            F32.one (F32.lit 8 10).

(** ** The two halves of [Update]

    [Update_integrate] is the body of [Update] down to the reset of the
    forces, [Update_collide] is its ground check; the state between the
    two is the state "at the collision check". *)

Definition Update_integrate (dt : float32) : Method unit :=
  forces <- load Forces ;;
  mass <- load Mass ;;
  let acceleration := mgl32.Mul forces (F32.one / mass)%f32 in
  velocity <- load Velocity ;;
  store_Velocity (mgl32.Add velocity (mgl32.Mul acceleration dt)) ;;
  position <- load Position ;;
  velocity <- load Velocity ;;
  store_Position (mgl32.Add position (mgl32.Mul velocity dt)) ;;
  store_Forces (mkVec3 F32.zero F32.zero F32.zero).

Definition Update_collide : Method unit :=
  position <- load Position ;;
  if (mgl32.Y position <? F32.minus_one)%f32 then
    position <- load Position ;;
    store_Position (mgl32.set_at position 1 F32.minus_one) ;;
    velocity <- load Velocity ;;
    elasticity <- load Elasticity ;;
    store_Velocity
      (mgl32.set_at velocity 1 (- mgl32.Y velocity * elasticity)%f32)
  else
    ret tt.

(** The state of the receiver when [Update] reaches its ground check. *)
Definition at_check (dt : float32) (o : Object) : Object :=
  exec (Update_integrate dt) o.

(** ** The steps of [update] as the specification words them *)

Module Spec.

Definition zero3 : Vec3 := mkVec3 F32.zero F32.zero F32.zero.

Definition groundLevel : float32 := F32.minus_one.

(** A vector divided by a scalar, component by component. *)
Definition Div (v : Vec3) (c : float32) : Vec3 :=
  mkVec3 (mgl32.X v / c)%f32 (mgl32.Y v / c)%f32 (mgl32.Z v / c)%f32.

(** Step 5, on the state that steps 1 to 4 leave. *)
Definition collide (o : Object) : Object :=
  if (mgl32.Y (Position o) <? groundLevel)%f32 then
    mkObject
      (mkVec3 (mgl32.X (Position o)) groundLevel (mgl32.Z (Position o)))
      (mkVec3 (mgl32.X (Velocity o))
              (- mgl32.Y (Velocity o) * Elasticity o)%f32
              (mgl32.Z (Velocity o)))
      (Mass o) (Forces o) (Elasticity o)
  else o.

(** Steps 1 to 5, step 1 being [acceleration = accumulatedForce / mass]. *)
Definition update (dt : float32) (o : Object) : Object :=
  let acceleration := Div (Forces o) (Mass o) in
  let velocity := mgl32.Add (Velocity o) (mgl32.Mul acceleration dt) in
  let position := mgl32.Add (Position o) (mgl32.Mul velocity dt) in
  collide (mkObject position velocity (Mass o) zero3 (Elasticity o)).

(** The same steps, step 1 being
    [acceleration = accumulatedForce * (1.0 / mass)]. *)
Definition update_recip (dt : float32) (o : Object) : Object :=
  let acceleration := mgl32.Mul (Forces o) (F32.one / Mass o)%f32 in
  let velocity := mgl32.Add (Velocity o) (mgl32.Mul acceleration dt) in
  let position := mgl32.Add (Position o) (mgl32.Mul velocity dt) in
  collide (mkObject position velocity (Mass o) zero3 (Elasticity o)).

End Spec.

(** ** The ground and the iterations of the loop *)

(** [position.y >= -1.0], as Go evaluates it. *)
Definition on_or_above_ground (o : Object) : Prop :=
  (F32.minus_one <=? mgl32.Y (Position o))%f32 = true.

(** [position.y < -1.0] is false. *)
Definition not_below_ground (o : Object) : Prop :=
  (mgl32.Y (Position o) <? F32.minus_one)%f32 = false.

(** One iteration of the loop body with any force and any step. *)
Inductive step : Object -> Object -> Prop :=
| step_tick (force : Vec3) (dt : float32) (o : Object) :
    step o (exec (AddForce force ;; Update dt) o).

(** The states some sequence of at least one iteration ends in. *)
Inductive after_ticks (o : Object) : Object -> Prop :=
| after_one o1 : step o o1 -> after_ticks o o1
| after_more o1 o2 : after_ticks o o1 -> step o1 o2 -> after_ticks o o2.

(** [o] with another position, everything else the same. *)
Definition with_Position (position : Vec3) (o : Object) : Object :=
  mkObject position (Velocity o) (Mass o) (Forces o) (Elasticity o).

(** ** Concrete bodies used as test inputs *)

Module Inputs.

(** The largest finite [float32]. *)
Definition max_float : float32 := Eval vm_compute in SFmax_float F32.prec F32.emax.

Definition half : float32 := Eval vm_compute in F32.lit 1 2.
Definition three : float32 := Eval vm_compute in F32.of_Z 3.
Definition five : float32 := Eval vm_compute in F32.of_Z 5.
Definition two24 : float32 := Eval vm_compute in F32.of_Z 16777216.
Definition elast : float32 := Eval vm_compute in F32.lit 8 10.

Definition up (c : float32) : Vec3 := mkVec3 F32.zero c F32.zero.
Definition along (c : float32) : Vec3 := mkVec3 c F32.zero F32.zero.

(** A body at rest at the origin, of mass 0.5 and elasticity 0.8. *)
Definition light : Object := NewObject Spec.zero3 Spec.zero3 half elast.

(** [light] after one iteration with the largest finite upward force:
    the velocity and the position overflow to [+Inf]. *)
Definition light1 : Object :=
  exec (AddForce (up max_float) ;; Update timeStep) light.

(** [light1] after one more iteration with the opposite force. *)
Definition light2 : Object :=
  exec (AddForce (up (- max_float)%f32) ;; Update timeStep) light1.

(** A body of mass 3 at rest that has accumulated the force (0, 5, 0). *)
Definition pushed : Object :=
  exec (AddForce (up five)) (NewObject Spec.zero3 Spec.zero3 three elast).

(** A body lying on the ground and moving down at unit speed. *)
Definition sinking : Object :=
  NewObject (up F32.minus_one) (up F32.minus_one) F32.one elast.

(** The same body one unit higher. *)
Definition falling : Object :=
  NewObject Spec.zero3 (up F32.minus_one) F32.one elast.

(** A body of mass 0.5 and elasticity 0 at rest at the origin. *)
Definition sticky : Object :=
  NewObject Spec.zero3 Spec.zero3 half F32.zero.

(** A body of mass 0.5 and elasticity 1 at rest at the origin. *)
Definition bouncy : Object :=
  NewObject Spec.zero3 Spec.zero3 half F32.one.

(** [sinking] with elasticity 0 and with elasticity 1. *)
Definition sinking_sticky : Object :=
  NewObject (up F32.minus_one) (up F32.minus_one) F32.one F32.zero.
Definition sinking_bouncy : Object :=
  NewObject (up F32.minus_one) (up F32.minus_one) F32.one F32.one.

(** [sticky] and [bouncy] under the largest finite downward force. *)
Definition sticky_pushed : Object :=
  exec (AddForce (up (- max_float)%f32)) sticky.
Definition bouncy_pushed : Object :=
  exec (AddForce (up (- max_float)%f32)) bouncy.

(** A body at rest that has accumulated the force (2^24, 0, 0). *)
Definition loaded : Object :=
  exec (AddForce (along two24)) (NewObject Spec.zero3 Spec.zero3 F32.one elast).

End Inputs.

(** * The rest of [main.go]

    The model matrix, the shader loader and the body of [main] with its
    frame loop.  They call the packages [mgl32], [gl], [glfw], [ioutil],
    [fmt], [log] and [time], none of which is part of the repository:
    their calls are recorded in the order in which the code makes them,
    and what they answer is a parameter. *)

(** ** The model matrix *)

(** [mgl32.Mat4] is [[16]float32], the columns one after the other. *)
Definition Mat4 : Type := list float32.

(** Modelled from the spec: [mgl32.Translate3D] of the imported package,
    "a pure translation matrix", "4x4 column-major", with no rotation or
    scale: the identity with the translation in its last column. *)
Definition Translate3D (Tx Ty Tz : float32) : Mat4 :=
  [ F32.one; F32.zero; F32.zero; F32.zero;
    F32.zero; F32.one; F32.zero; F32.zero;
    F32.zero; F32.zero; F32.one; F32.zero;
    Tx; Ty; Tz; F32.one ].

(** The result of a method. *)
Definition eval {A : Type} (m : Method A) (o : Object) : A := fst (m o).

(** [func (o *Object) ModelMatrix() mgl32.Mat4] *)
Definition ModelMatrix : Method Mat4 :=
  position <- load Position ;;
  ret (Translate3D (mgl32.X position) (mgl32.Y position) (mgl32.Z position)).

(** ** Machine integers and byte strings *)

Definition uint32 (z : Z) : Z := z mod 2 ^ 32.
Definition int32 (z : Z) : Z := (z + 2 ^ 31) mod 2 ^ 32 - 2 ^ 31.

(** The byte 0 as a string, Go's ["\x00"]. *)
Definition NUL : string := String "000"%char EmptyString.

(** [make([]byte, n)]: [n] zero bytes. *)
Definition zeros (n : nat) : string := String.concat EmptyString (List.repeat NUL n).

Fixpoint take (n : nat) (s : string) : string :=
  match n, s with
  | O, _ => EmptyString
  | S n', String c s' => String c (take n' s')
  | S _, EmptyString => EmptyString
  end.

(** A buffer of [n] zero bytes after a callee wrote the bytes [written]
    at its start; nothing is written past the end of the buffer. *)
Definition fill (n : nat) (written : string) : string :=
  take n (written ++ zeros n)%string.

(** ** The calls into the imported packages

    Constants of the packages are written with their OpenGL and GLFW
    values. *)

Module gl.
Definition FALSE : Z := 0.
Definition VERSION : Z := 0x1F02.
Definition ARRAY_BUFFER : Z := 0x8892.
Definition STATIC_DRAW : Z := 0x88E4.
Definition FLOAT : Z := 0x1406.
Definition VERTEX_SHADER : Z := 0x8B31.
Definition FRAGMENT_SHADER : Z := 0x8B30.
Definition COMPILE_STATUS : Z := 0x8B81.
Definition LINK_STATUS : Z := 0x8B82.
Definition INFO_LOG_LENGTH : Z := 0x8B84.
Definition COLOR_BUFFER_BIT : Z := 0x4000.
Definition DEPTH_BUFFER_BIT : Z := 0x100.
Definition TRIANGLES : Z := 4.
End gl.

Module glfw.
Definition False : Z := 0.
Definition True : Z := 1.
Definition Resizable : Z := 0x00020003.
Definition ContextVersionMajor : Z := 0x00022002.
Definition ContextVersionMinor : Z := 0x00022003.
Definition OpenGLForwardCompatible : Z := 0x00022006.
Definition OpenGLProfile : Z := 0x00022008.
Definition OpenGLCoreProfile : Z := 0x00032001.
Definition KeyEscape : Z := 256.

(** [glfw.Action] *)
Inductive Action : Type := Release | Press | Repeat.

End glfw.

Definition Action_eqb (a b : glfw.Action) : bool :=
  match a, b with
  | glfw.Release, glfw.Release => true
  | glfw.Press, glfw.Press => true
  | glfw.Repeat, glfw.Repeat => true
  | _, _ => false
  end.

(** One call, with the arguments the code passes.  Pointer arguments
    appear as what they point to: a source text, a matrix, the vertex
    data; an out-parameter does not appear, its value is the answer. *)
Inductive Call : Type :=
| glfw_Init
| glfw_Terminate
| glfw_WindowHint (target hint : Z)
| glfw_CreateWindow (width height : Z) (title : string)
| window_MakeContextCurrent
| window_ShouldClose
| window_GetKey (key : Z)
| window_SetShouldClose (value : bool)
| window_SwapBuffers
| glfw_PollEvents
| gl_Init
| gl_GetString (name : Z)
| fmt_Println (text : string)
| gl_GenVertexArrays (n : Z)
| gl_BindVertexArray (array : Z)
| gl_GenBuffers (n : Z)
| gl_BindBuffer (target buffer : Z)
| gl_BufferData (target size : Z) (data : list float32) (usage : Z)
| gl_VertexAttribPointer (index size xtype : Z) (normalized : bool)
                         (stride offset : Z)
| gl_EnableVertexAttribArray (index : Z)
| ioutil_ReadFile (filename : string)
| gl_CreateShader (xtype : Z)
| gl_ShaderSource (shader count : Z) (source : string)
| gl_CompileShader (shader : Z)
| gl_GetShaderiv (shader pname : Z)
| gl_GetShaderInfoLog (shader bufSize : Z)
| gl_CreateProgram
| gl_AttachShader (program shader : Z)
| gl_LinkProgram (program : Z)
| gl_GetProgramiv (program pname : Z)
| gl_GetProgramInfoLog (program bufSize : Z)
| gl_DeleteShader (shader : Z)
| gl_UseProgram (program : Z)
| gl_GetUniformLocation (program : Z) (name : string)
| time_NewTicker (milliseconds : Z)
| ticker_receive
| gl_ClearColor (red green blue alpha : float32)
| gl_Clear (mask : Z)
| gl_UniformMatrix4fv (location count : Z) (transpose : bool) (value : Mat4)
| gl_DrawArrays (mode first count : Z)
| gl_DeleteVertexArrays (n array : Z)
| gl_DeleteBuffers (n buffer : Z).

(** What the packages answer.  An answer may depend on every call made
    before, so that any driver, file system and windowing system is an
    instance. *)
Record Env : Type := {
  answer_int : list Call -> Call -> Z;
  answer_bytes : list Call -> Call -> string;
  answer_error : list Call -> Call -> option string
}.

(** ** The window

    Modelled from the spec: the windowing collaborator, which is not
    part of the repository.  It holds the "close requested" state, which
    the loop queries and sets, and the last state of the exit key; the
    event pump, called once per iteration, brings both up to date. *)
Record Window : Type := {
  should_close : bool;
  key_escape : glfw.Action
}.

(** What one call of the event pump finds: the state of the exit key,
    and whether the user asked to close the window. *)
Record Poll : Type := {
  poll_escape : glfw.Action;
  poll_close : bool
}.

Definition PollEvents (p : Poll) (w : Window) : Window :=
  {| should_close := should_close w || poll_close p;
     key_escape := poll_escape p |}.

(** ** Programs

    A run has made a sequence of calls, has a window, and has the
    findings of the event pump still to come. *)
Record World : Type := {
  trace : list Call;
  window : Window;
  polls : list Poll
}.

(** How a part of the program ends: it returns; the process exits
    ([os.Exit], through [log.Fatalln]); it panics; or the findings of
    the event pump end before the program does. *)
Inductive outcome (A : Type) : Type :=
| Returns (a : A) (w : World)
| Exits (code : Z) (message : string) (w : World)
| Panics (message : string) (w : World)
| Pending (w : World).
Arguments Returns {A} a w.
Arguments Exits {A} code message w.
Arguments Panics {A} message w.
Arguments Pending {A} w.

Definition IO (A : Type) : Type := World -> outcome A.

Definition io_ret {A : Type} (a : A) : IO A := fun w => Returns a w.

Definition io_bind {A B : Type} (m : IO A) (k : A -> IO B) : IO B :=
  fun w =>
    match m w with
    | Returns a w' => k a w'
    | Exits code message w' => Exits code message w'
    | Panics message w' => Panics message w'
    | Pending w' => Pending w'
    end.

Declare Scope io_scope.
Delimit Scope io_scope with io.
Notation "x <- m ;; k" := (io_bind m (fun x => k))
  (at level 61, m at next level, right associativity) : io_scope.
Notation "m ;; k" := (io_bind m (fun _ => k))
  (at level 61, right associativity) : io_scope.

Definition record (c : Call) (w : World) : World :=
  {| trace := trace w ++ [c]; window := window w; polls := polls w |}.

(** The world after some more calls. *)
Definition advance (calls : list Call) (w : World) : World :=
  {| trace := trace w ++ calls; window := window w; polls := polls w |}.

(** A call that answers nothing. *)
Definition call (c : Call) : IO unit := fun w => Returns tt (record c w).

Definition panic {A : Type} (message : string) : IO A :=
  fun w => Panics message w.

(** [log.Fatalln]: the message, then [os.Exit(1)]; deferred calls do not
    run. *)
Definition Fatalln {A : Type} (message : string) : IO A :=
  fun w => Exits 1 message w.

(** [defer d] around [body]: [d] runs when [body] returns or panics. *)
Definition defer {A : Type} (d : IO unit) (body : IO A) : IO A :=
  fun w =>
    match body w with
    | Returns a w' =>
        match d w' with
        | Returns _ w'' => Returns a w''
        | Exits code message w'' => Exits code message w''
        | Panics message w'' => Panics message w''
        | Pending w'' => Pending w''
        end
    | Panics message w' =>
        match d w' with
        | Returns _ w'' => Panics message w''
        | Exits code message' w'' => Exits code message' w''
        | Panics message' w'' => Panics message' w''
        | Pending w'' => Pending w''
        end
    | Exits code message w' => Exits code message w'
    | Pending w' => Pending w'
    end.

Section Program.

Variable env : Env.

(** Calls with an answer: a [uint32], an [int32], a text, an [error]. *)
Definition ask_uint32 (c : Call) : IO Z :=
  fun w => Returns (uint32 (answer_int env (trace w) c)) (record c w).
Definition ask_int32 (c : Call) : IO Z :=
  fun w => Returns (int32 (answer_int env (trace w) c)) (record c w).
Definition ask_bytes (c : Call) : IO string :=
  fun w => Returns (answer_bytes env (trace w) c) (record c w).
Definition ask_error (c : Call) : IO (option string) :=
  fun w => Returns (answer_error env (trace w) c) (record c w).

(** [make([]byte, n)] followed by taking the address of its first
    element, as both info-log readers do. *)
Definition make_log_buffer (n : Z) : IO nat :=
  if n <? 0 then panic "makeslice: len out of range"
  else if n =? 0 then panic "index out of range [0] with length 0"
  else io_ret (Z.to_nat n).

(** [ioutil.ReadFile]: the content and the error. *)
Definition ReadFile (filename : string) : IO (string * option string) :=
  fun w =>
    let c := ioutil_ReadFile filename in
    Returns (answer_bytes env (trace w) c, answer_error env (trace w) c)
            (record c w).

(** [func compileShader(source string, shaderType uint32) (uint32, error)] *)
Definition compileShader (source : string) (shaderType : Z)
  : IO (Z * option string) :=
  (shader <- ask_uint32 (gl_CreateShader shaderType) ;;
   call (gl_ShaderSource shader 1 source) ;;
   call (gl_CompileShader shader) ;;
   status <- ask_int32 (gl_GetShaderiv shader gl.COMPILE_STATUS) ;;
   if status =? gl.FALSE then
     logLength <- ask_int32 (gl_GetShaderiv shader gl.INFO_LOG_LENGTH) ;;
     n <- make_log_buffer logLength ;;
     written <- ask_bytes (gl_GetShaderInfoLog shader logLength) ;;
     io_ret (0, Some ("failed to compile " ++ source ++ ": "
                        ++ fill n written)%string)
   else
     io_ret (shader, None))%io.

(** [func newProgram(vertexShaderPath, fragmentShaderPath string)
    (uint32, error)] *)
Definition newProgram (vertexShaderPath fragmentShaderPath : string)
  : IO (Z * option string) :=
  (vertexShaderSource <- ReadFile vertexShaderPath ;;
   match snd vertexShaderSource with
   | Some err =>
       io_ret (0, Some ("failed to read vertex shader: " ++ err)%string)
   | None =>
   fragmentShaderSource <- ReadFile fragmentShaderPath ;;
   match snd fragmentShaderSource with
   | Some err =>
       io_ret (0, Some ("failed to read fragment shader: " ++ err)%string)
   | None =>
   vertexShader <-
     compileShader (fst vertexShaderSource ++ NUL)%string gl.VERTEX_SHADER ;;
   match snd vertexShader with
   | Some err => io_ret (0, Some err)
   | None =>
   fragmentShader <-
     compileShader (fst fragmentShaderSource ++ NUL)%string
                   gl.FRAGMENT_SHADER ;;
   match snd fragmentShader with
   | Some err => io_ret (0, Some err)
   | None =>
   program <- ask_uint32 gl_CreateProgram ;;
   call (gl_AttachShader program (fst vertexShader)) ;;
   call (gl_AttachShader program (fst fragmentShader)) ;;
   call (gl_LinkProgram program) ;;
   status <- ask_int32 (gl_GetProgramiv program gl.LINK_STATUS) ;;
   if status =? gl.FALSE then
     logLength <- ask_int32 (gl_GetProgramiv program gl.INFO_LOG_LENGTH) ;;
     n <- make_log_buffer logLength ;;
     written <- ask_bytes (gl_GetProgramInfoLog program logLength) ;;
     io_ret (0, Some ("failed to link program: " ++ fill n written)%string)
   else
     call (gl_DeleteShader (fst vertexShader)) ;;
     call (gl_DeleteShader (fst fragmentShader)) ;;
     io_ret (program, None)
   end end end end)%io.

(** The window's methods.  The exit key is the only key the code asks
    for. *)
Definition ShouldClose : IO bool :=
  fun w => Returns (should_close (window w)) (record window_ShouldClose w).

Definition GetKey (key : Z) : IO glfw.Action :=
  fun w => Returns (key_escape (window w)) (record (window_GetKey key) w).

Definition SetShouldClose (value : bool) : IO unit :=
  fun w =>
    Returns tt
      {| trace := trace w ++ [window_SetShouldClose value];
         window := {| should_close := value;
                      key_escape := key_escape (window w) |};
         polls := polls w |}.

(** [glfw.PollEvents()] takes the next finding of the event pump. *)
Definition glfw_PollEvents_io : IO unit :=
  fun w =>
    match polls w with
    | [] => Pending w
    | p :: rest =>
        Returns tt
          {| trace := trace w ++ [glfw_PollEvents];
             window := PollEvents p (window w);
             polls := rest |}
    end.

(** [func processInput(window *glfw.Window)] *)
Definition processInput : IO unit :=
  (action <- GetKey glfw.KeyEscape ;;
   if Action_eqb action glfw.Press then SetShouldClose true
   else io_ret tt)%io.

(** The body of the [for] loop of [main], from the receive on the
    ticker to the event pump, on the object [o]; [tick] is its
    [AddForce] and [Update]. *)
Definition frame (program vao modelLoc : Z) (o : Object) : IO Object :=
  (call ticker_receive ;;
   processInput ;;
   let o := exec tick o in
   call (gl_ClearColor (F32.lit 2 10) (F32.lit 3 10) (F32.lit 3 10) F32.one) ;;
   call (gl_Clear (Z.lor gl.COLOR_BUFFER_BIT gl.DEPTH_BUFFER_BIT)) ;;
   call (gl_UseProgram program) ;;
   call (gl_BindVertexArray vao) ;;
   let modelMatrix := eval ModelMatrix o in
   call (gl_UniformMatrix4fv modelLoc 1 false modelMatrix) ;;
   call (gl_DrawArrays gl.TRIANGLES 0 3) ;;
   call window_SwapBuffers ;;
   glfw_PollEvents_io ;;
   io_ret o)%io.

(** [for !window.ShouldClose() { ... }], with at most [fuel]
    iterations. *)
Fixpoint frames (fuel : nat) (program vao modelLoc : Z) (o : Object)
  : IO Object :=
  match fuel with
  | O => fun w => Pending w
  | S fuel' =>
      (closing <- ShouldClose ;;
       if closing then io_ret o
       else
         o' <- frame program vao modelLoc o ;;
         frames fuel' program vao modelLoc o')%io
  end.

(** The loop: every iteration but the last takes one finding of the
    event pump, so one iteration more than there are findings is
    enough. *)
Definition frame_loop (program vao modelLoc : Z) (o : Object) : IO Object :=
  fun w => frames (S (List.length (polls w))) program vao modelLoc o w.

(** The vertices of the triangle. *)
Definition vertices : list float32 :=
  [ F32.neg (F32.lit 5 10); F32.neg (F32.lit 5 10); F32.zero;
    F32.lit 5 10; F32.neg (F32.lit 5 10); F32.zero;
    F32.zero; F32.lit 5 10; F32.zero ].

(** [func main()]; it returns the object as the loop left it. *)
Definition main : IO Object :=
  (err <- ask_error glfw_Init ;;
   match err with
   | Some err => Fatalln ("failed to initialize glfw: " ++ err)%string
   | None =>
   defer (call glfw_Terminate)
   (call (glfw_WindowHint glfw.Resizable glfw.False) ;;
    call (glfw_WindowHint glfw.ContextVersionMajor 4) ;;
    call (glfw_WindowHint glfw.ContextVersionMinor 1) ;;
    call (glfw_WindowHint glfw.OpenGLProfile glfw.OpenGLCoreProfile) ;;
    call (glfw_WindowHint glfw.OpenGLForwardCompatible glfw.True) ;;
    err <- ask_error (glfw_CreateWindow 800 600 "3D Physics Simulation") ;;
    match err with
    | Some err => Fatalln ("failed to create window: " ++ err)%string
    | None =>
    call window_MakeContextCurrent ;;
    err <- ask_error gl_Init ;;
    match err with
    | Some err => Fatalln ("failed to initialize glow: " ++ err)%string
    | None =>
    version <- ask_bytes (gl_GetString gl.VERSION) ;;
    call (fmt_Println ("OpenGL version " ++ version)%string) ;;
    vao <- ask_uint32 (gl_GenVertexArrays 1) ;;
    call (gl_BindVertexArray vao) ;;
    vbo <- ask_uint32 (gl_GenBuffers 1) ;;
    call (gl_BindBuffer gl.ARRAY_BUFFER vbo) ;;
    call (gl_BufferData gl.ARRAY_BUFFER
            (Z.of_nat (List.length vertices) * 4) vertices gl.STATIC_DRAW) ;;
    call (gl_VertexAttribPointer 0 3 gl.FLOAT false (3 * 4) 0) ;;
    call (gl_EnableVertexAttribArray 0) ;;
    program <- newProgram "shaders/vertex_shader.glsl"
                          "shaders/fragment_shader.glsl" ;;
    match snd program with
    | Some err => Fatalln err
    | None =>
    let program := fst program in
    call (gl_UseProgram program) ;;
    let object := NewObject (mkVec3 F32.zero F32.zero F32.zero)
                            (mkVec3 F32.zero (F32.of_Z 5) F32.zero)
                            F32.one (F32.lit 8 10) in
    modelLoc <- ask_int32 (gl_GetUniformLocation program ("model" ++ NUL)%string) ;;
    call (time_NewTicker 10) ;;
    object <- frame_loop program vao modelLoc object ;;
    call (gl_DeleteVertexArrays 1 vao) ;;
    call (gl_DeleteBuffers 1 vbo) ;;
    io_ret object
    end end end)
   end)%io.

End Program.

(** ** What the driver reports to [compileShader]

    The answers that decide how [compileShader source shaderType] ends
    when it starts in the world [w]: the name of the new shader, its
    compile status, and the length of its info log. *)

Definition created_shader (env : Env) (shaderType : Z) (w : World) : Z :=
  uint32 (answer_int env (trace w) (gl_CreateShader shaderType)).

Definition compile_calls (env : Env) (source : string) (shaderType : Z)
    (w : World) : list Call :=
  let shader := created_shader env shaderType w in
  [ gl_CreateShader shaderType; gl_ShaderSource shader 1 source;
    gl_CompileShader shader; gl_GetShaderiv shader gl.COMPILE_STATUS ].

Definition compile_status (env : Env) (source : string) (shaderType : Z)
    (w : World) : Z :=
  let shader := created_shader env shaderType w in
  int32 (answer_int env
           (trace w ++ [ gl_CreateShader shaderType;
                         gl_ShaderSource shader 1 source;
                         gl_CompileShader shader ])
           (gl_GetShaderiv shader gl.COMPILE_STATUS)).

Definition compile_log_length (env : Env) (source : string) (shaderType : Z)
    (w : World) : Z :=
  let shader := created_shader env shaderType w in
  int32 (answer_int env
           (trace w ++ compile_calls env source shaderType w)
           (gl_GetShaderiv shader gl.INFO_LOG_LENGTH)).

(** The bytes the driver writes when it is asked for the info log of
    that shader, after the two queries. *)
Definition compile_log (env : Env) (source : string) (shaderType : Z)
    (w : World) : string :=
  let shader := created_shader env shaderType w in
  answer_bytes env
    (trace w ++ compile_calls env source shaderType w
       ++ [gl_GetShaderiv shader gl.INFO_LOG_LENGTH])
    (gl_GetShaderInfoLog shader
       (compile_log_length env source shaderType w)).

(** ** Kinds of calls *)

Definition is_gl_DeleteShader (c : Call) : bool :=
  match c with gl_DeleteShader _ => true | _ => false end.

Definition is_glfw_Terminate (c : Call) : bool :=
  match c with glfw_Terminate => true | _ => false end.

Definition is_ticker_receive (c : Call) : bool :=
  match c with ticker_receive => true | _ => false end.

(** The calls of the shader loader: reading a file, and the calls of
    [gl] on shaders and programs. *)
Definition loader_call (c : Call) : bool :=
  match c with
  | ioutil_ReadFile _
  | gl_CreateShader _ | gl_ShaderSource _ _ _ | gl_CompileShader _
  | gl_GetShaderiv _ _ | gl_GetShaderInfoLog _ _
  | gl_CreateProgram | gl_AttachShader _ _ | gl_LinkProgram _
  | gl_GetProgramiv _ _ | gl_GetProgramInfoLog _ _
  | gl_DeleteShader _ => true
  | _ => false
  end.

(** The calls with which [newProgram] ends when it succeeds: it creates
    and links [program] from the shaders [v] and [f], then deletes the
    two. *)
Definition link_calls (program v f : Z) : list Call :=
  [ gl_CreateProgram; gl_AttachShader program v; gl_AttachShader program f;
    gl_LinkProgram program; gl_GetProgramiv program gl.LINK_STATUS;
    gl_DeleteShader v; gl_DeleteShader f ].

(** ** What one iteration of the loop does *)

(** The window after [processInput], and the calls [processInput]
    makes. *)
Definition input_window (w : Window) : Window :=
  if Action_eqb (key_escape w) glfw.Press
  then {| should_close := true; key_escape := key_escape w |}
  else w.

Definition input_calls (w : Window) : list Call :=
  if Action_eqb (key_escape w) glfw.Press
  then [window_GetKey glfw.KeyEscape; window_SetShouldClose true]
  else [window_GetKey glfw.KeyEscape].

(** The calls that draw the object [o]. *)
Definition draw_calls (program vao modelLoc : Z) (o : Object) : list Call :=
  [ gl_ClearColor (F32.lit 2 10) (F32.lit 3 10) (F32.lit 3 10) F32.one;
    gl_Clear (Z.lor gl.COLOR_BUFFER_BIT gl.DEPTH_BUFFER_BIT);
    gl_UseProgram program;
    gl_BindVertexArray vao;
    gl_UniformMatrix4fv modelLoc 1 false (eval ModelMatrix o);
    gl_DrawArrays gl.TRIANGLES 0 3;
    window_SwapBuffers ].

(** A window that is not closing and whose exit key is not pressed. *)
Definition calm (w : Window) : Prop :=
  should_close w = false /\ Action_eqb (key_escape w) glfw.Press = false.

(** An event-pump finding with the exit key not pressed and no request
    to close. *)
Definition quiet (p : Poll) : bool :=
  negb (Action_eqb (poll_escape p) glfw.Press) && negb (poll_close p).

(** The matrices handed to the shader, in the order of the calls. *)
Fixpoint matrices (calls : list Call) : list Mat4 :=
  match calls with
  | [] => []
  | gl_UniformMatrix4fv _ _ _ m :: rest => m :: matrices rest
  | _ :: rest => matrices rest
  end.


(** ** Concrete drivers used as test inputs *)

Module Drivers.

(** A window nobody has touched. *)
Definition fresh : Window :=
  {| should_close := false; key_escape := glfw.Release |}.

(** The start of a run whose event pump will find [findings]. *)
Definition start (findings : list Poll) : World :=
  {| trace := []; window := fresh; polls := findings |}.

Definition nothing : Poll :=
  {| poll_escape := glfw.Release; poll_close := false |}.
Definition escape : Poll :=
  {| poll_escape := glfw.Press; poll_close := false |}.
Definition close : Poll :=
  {| poll_escape := glfw.Release; poll_close := true |}.

(** A driver under which everything succeeds: shaders 1 and 2, program
    3, every status 1. *)
Definition good_int (history : list Call) (c : Call) : Z :=
  match c with
  | gl_CreateShader xtype => if xtype =? gl.VERTEX_SHADER then 1 else 2
  | gl_CreateProgram => 3
  | gl_GetShaderiv _ _ | gl_GetProgramiv _ _ => 1
  | gl_GenVertexArrays _ | gl_GenBuffers _ => 1
  | _ => 0
  end.

Definition good_bytes (history : list Call) (c : Call) : string :=
  match c with
  | ioutil_ReadFile _ => "void main() {}"%string
  | gl_GetString _ => "4.1"%string
  | _ => EmptyString
  end.

Definition good : Env :=
  {| answer_int := good_int;
     answer_bytes := good_bytes;
     answer_error := fun _ _ => None |}.

(** A driver that refuses every shader, with an info log of
    [logLength] bytes. *)
Definition refusing (logLength : Z) : Env :=
  {| answer_int := fun history c =>
       match c with
       | gl_GetShaderiv _ pname =>
           if pname =? gl.COMPILE_STATUS then 0 else logLength
       | _ => good_int history c
       end;
     answer_bytes := fun history c =>
       match c with
       | gl_GetShaderInfoLog _ _ => "syntax error"%string
       | _ => good_bytes history c
       end;
     answer_error := fun _ _ => None |}.

(** A file system without the fragment shader, and one without any
    file. *)
Definition no_fragment : Env :=
  {| answer_int := good_int;
     answer_bytes := good_bytes;
     answer_error := fun _ c =>
       match c with
       | ioutil_ReadFile filename =>
           if String.eqb filename "shaders/fragment_shader.glsl"
           then Some "no such file"%string else None
       | _ => None
       end |}.

Definition no_file : Env :=
  {| answer_int := good_int;
     answer_bytes := good_bytes;
     answer_error := fun _ c =>
       match c with
       | ioutil_ReadFile _ => Some "no such file"%string
       | _ => None
       end |}.

(** A windowing system that cannot open a window. *)
Definition no_window : Env :=
  {| answer_int := good_int;
     answer_bytes := good_bytes;
     answer_error := fun _ c =>
       match c with
       | glfw_CreateWindow _ _ _ => Some "no display"%string
       | _ => None
       end |}.

End Drivers.
(** * Theorems *)

(** ** Comparisons and special values of binary32 *)

Lemma SFcompare_antisym (x y : spec_float) :
  SFcompare y x = option_map CompOpp (SFcompare x y).
Proof.
  destruct x as [[]|[]| |[] mx ex], y as [[]|[]| |[] my ey];
    simpl; try reflexivity;
    rewrite (Z.compare_antisym ex ey); destruct (ex ?= ey);
    simpl; try reflexivity;
    rewrite (Pos.compare_cont_antisym mx my Eq); simpl;
    try rewrite CompOpp_involutive; reflexivity.
Qed.

(** [x < y] false means [y <= x], unless one of the two is NaN. *)
Lemma f32_ltb_false (x y : float32) :
  (x <? y)%f32 = false ->
  (y <=? x)%f32 = true \/ F32.is_nan x = true \/ F32.is_nan y = true.
Proof.
  unfold F32.ltb, F32.leb, SFltb, SFleb. rewrite (SFcompare_antisym x y).
  destruct (SFcompare x y) as [[]|] eqn:E; simpl; intro H;
    try discriminate; auto.
  right. destruct x, y; simpl in *; auto; try discriminate;
    repeat match goal with
           | b : bool |- _ => destruct b; simpl in E; try discriminate E
           end.
Qed.

(** [x == 0.0] holds of the two zeros only. *)
Lemma f32_eqb_zero (x : float32) :
  (x =? F32.zero)%f32 = true <-> F32.is_zero x = true.
Proof.
  split.
  - now destruct x as [s|[]| |[] m e].
  - now destruct x as [[]| | |].
Qed.

(** [x == 1.0] holds of one member of [spec_float] only. *)
Lemma f32_eqb_one (x : float32) :
  (x =? F32.one)%f32 = true -> x = F32.one.
Proof.
  destruct x as [s|[]| |[] m e]; try discriminate.
  unfold F32.eqb, SFeqb, F32.one. cbn [SFcompare].
  destruct (e ?= -23) eqn:He; try discriminate.
  destruct (Pos.compare_cont Eq m 8388608) eqn:Hm; try discriminate.
  intros _. apply Z.compare_eq in He. apply Pos.compare_eq in Hm.
  now subst.
Qed.

Lemma f32_neg_finite (x : float32) :
  F32.is_finite (- x)%f32 = F32.is_finite x.
Proof. now destruct x. Qed.

Lemma f32_neg_wf (x : float32) : F32.wf (- x)%f32 = F32.wf x.
Proof. now destruct x. Qed.

(** A zero times a finite number, and a finite number times a zero, are
    zeros. *)
Lemma f32_zero_mul_finite (z c : float32) :
  F32.is_zero z = true -> F32.is_finite c = true ->
  F32.is_zero (z * c)%f32 = true.
Proof. destruct z, c; try discriminate; reflexivity. Qed.

Lemma f32_finite_mul_zero (c z : float32) :
  F32.is_finite c = true -> F32.is_zero z = true ->
  F32.is_zero (c * z)%f32 = true.
Proof. destruct z, c; try discriminate; reflexivity. Qed.

(** ** The same number *)

Lemma f32_same_refl (x : float32) : F32.same x x.
Proof. now left. Qed.

Lemma f32_same_sym (x y : float32) : F32.same x y -> F32.same y x.
Proof. intros [->|[Hx Hy]]; [now left | now right]. Qed.

Lemma f32_same_trans (x y z : float32) :
  F32.same x y -> F32.same y z -> F32.same x z.
Proof.
  intros [->|[Hx Hy]] [<-|[Hy' Hz]];
    [now left | now right | now right | now right].
Qed.

(** Adding a zero changes at most the sign of a zero. *)
Lemma f32_add_zero_r (x z : float32) :
  F32.is_zero z = true -> F32.same (x + z)%f32 x.
Proof.
  destruct z as [sz| | |]; try discriminate. intros _.
  destruct x as [[]|[]| |[] m e], sz; try (now left); now right.
Qed.

Lemma f32_add_same_r (x a b : float32) :
  F32.same a b -> F32.same (x + a)%f32 (x + b)%f32.
Proof.
  intros [->|[Ha Hb]]; [now left|].
  apply f32_same_trans with (y := x).
  - now apply f32_add_zero_r.
  - apply f32_same_sym. now apply f32_add_zero_r.
Qed.

Lemma f32_mul_same_l (a b c : float32) :
  F32.is_finite c = true -> F32.same a b -> F32.same (a * c)%f32 (b * c)%f32.
Proof.
  intros Hc [->|[Ha Hb]]; [now left|].
  right. split; now apply f32_zero_mul_finite.
Qed.

(** ** Rounding to binary32

    [binary_round_aux] shifts the mantissa right until its exponent is
    the one binary32 gives to a number of that magnitude, rounds, and
    shifts once more in case the rounding carried. *)

Section Rounding.

Local Abbreviation fexp32 := (fexp F32.prec F32.emax).
Local Abbreviation shr_fexp32 := (shr_fexp F32.prec F32.emax).
Local Abbreviation round32 := (binary_round_aux F32.prec F32.emax).

Lemma fexp32_eq (z : Z) : fexp32 z = Z.max (z - 24) (-149).
Proof. reflexivity. Qed.

Lemma shr_1_m (mrs : shr_record) :
  0 <= shr_m mrs -> shr_m (shr_1 mrs) = shr_m mrs / 2.
Proof.
  destruct mrs as [m r s]. cbn [shr_m]. intro Hm.
  destruct m as [|[p|p|]|p]; cbn [shr_1 shr_m]; try reflexivity; try lia.
  - change (Z.pos p~1) with (2 * Z.pos p + 1).
    apply Z.div_unique with (r := 1); lia.
  - change (Z.pos p~0) with (2 * Z.pos p).
    apply Z.div_unique with (r := 0); lia.
Qed.

Lemma iter_shr_1_m (n : positive) :
  forall mrs, 0 <= shr_m mrs ->
    shr_m (iter_pos shr_1 n mrs) = shr_m mrs / 2 ^ Zpos n.
Proof.
  induction n as [n IH|n IH|]; intros mrs Hm; cbn [iter_pos].
  - assert (H1 : 0 <= shr_m (shr_1 mrs)).
    { rewrite shr_1_m by exact Hm. apply Z.div_pos; lia. }
    assert (H2 : 0 <= shr_m (iter_pos shr_1 n (shr_1 mrs))).
    { rewrite IH by exact H1.
      apply Z.div_pos; [exact H1 | apply Z.pow_pos_nonneg; lia]. }
    rewrite (IH _ H2), (IH _ H1), shr_1_m by exact Hm.
    rewrite !Z.div_div by (try apply Z.pow_pos_nonneg; lia).
    f_equal. change (Z.pos n~1) with (2 * Z.pos n + 1).
    replace (2 * Z.pos n + 1) with (1 + Z.pos n + Z.pos n) by lia.
    rewrite !Z.pow_add_r by lia. lia.
  - assert (H1 : 0 <= shr_m (iter_pos shr_1 n mrs)).
    { rewrite IH by exact Hm.
      apply Z.div_pos; [exact Hm | apply Z.pow_pos_nonneg; lia]. }
    rewrite (IH _ H1), (IH _ Hm).
    rewrite !Z.div_div by (try apply Z.pow_pos_nonneg; lia).
    f_equal. change (Z.pos n~0) with (2 * Z.pos n).
    replace (2 * Z.pos n) with (Z.pos n + Z.pos n) by lia.
    rewrite !Z.pow_add_r by lia. lia.
  - rewrite shr_1_m by exact Hm. reflexivity.
Qed.

Lemma shr_record_of_loc_m (m : Z) (l : location) :
  shr_m (shr_record_of_loc m l) = m.
Proof. destruct l as [|[]]; reflexivity. Qed.

Lemma round_nearest_even_range (m : Z) (l : location) :
  m <= round_nearest_even m l <= m + 1.
Proof.
  destruct l as [|[]]; cbn [round_nearest_even]; try lia.
  destruct (Z.even m); lia.
Qed.

(** The number of binary digits. *)

Lemma digits2_pos_bound (p : positive) :
  2 ^ (Zpos (digits2_pos p) - 1) <= Zpos p < 2 ^ Zpos (digits2_pos p).
Proof.
  induction p as [p IH|p IH|]; cbn [digits2_pos].
  - rewrite Pos2Z.inj_succ. change (Z.pos p~1) with (2 * Z.pos p + 1).
    replace (Z.succ (Z.pos (digits2_pos p)) - 1)
      with (1 + (Z.pos (digits2_pos p) - 1)) by lia.
    rewrite Z.pow_succ_r by lia. rewrite Z.pow_add_r by lia. lia.
  - rewrite Pos2Z.inj_succ. change (Z.pos p~0) with (2 * Z.pos p).
    replace (Z.succ (Z.pos (digits2_pos p)) - 1)
      with (1 + (Z.pos (digits2_pos p) - 1)) by lia.
    rewrite Z.pow_succ_r by lia. rewrite Z.pow_add_r by lia. lia.
  - cbn. lia.
Qed.

Lemma Zdigits2_log2 (m : Z) : 0 < m -> Zdigits2 m = Z.log2 m + 1.
Proof.
  destruct m as [|p|p]; try lia. intros _. cbn [Zdigits2].
  pose proof (digits2_pos_bound p) as [Hlo Hhi].
  assert (Z.log2 (Z.pos p) = Z.pos (digits2_pos p) - 1); [|lia].
  apply Z.log2_unique; [lia|]. unfold Z.succ.
  replace (Z.pos (digits2_pos p) - 1 + 1) with (Z.pos (digits2_pos p)) by lia.
  split; assumption.
Qed.

Lemma Zdigits2_nonneg (m : Z) : 0 <= m -> 0 <= Zdigits2 m.
Proof. destruct m; cbn; lia. Qed.

Lemma Zdigits2_mono (m n : Z) : 0 <= m <= n -> Zdigits2 m <= Zdigits2 n.
Proof.
  intros [Hm Hn]. destruct (Z.eq_dec m 0) as [->|Hm0].
  - now apply Zdigits2_nonneg.
  - rewrite !Zdigits2_log2 by lia. pose proof (Z.log2_le_mono m n Hn). lia.
Qed.

Lemma digits2_pos_iter_xO (m k : positive) :
  Zpos (digits2_pos (Pos.iter xO m k)) = Zpos (digits2_pos m) + Zpos k.
Proof.
  induction k as [|k IH] using Pos.peano_ind.
  - cbn. lia.
  - rewrite Pos.iter_succ. cbn [digits2_pos]. lia.
Qed.

Lemma digits2_pos_shift23 (m : positive) :
  Zpos (digits2_pos (m * 8388608)) = Zpos (digits2_pos m) + 23.
Proof. rewrite Pos.mul_comm. cbn [Pos.mul digits2_pos]. lia. Qed.

(** One shift of [binary_round_aux], on a mantissa whose exponent is not
    above the one of its magnitude: the exponent becomes that one; a
    mantissa that survives keeps its magnitude, and one that is shifted
    away leaves the least exponent. *)
Lemma shr_fexp_spec (m e : Z) (l : location) :
  0 <= m -> e <= fexp32 (Zdigits2 m + e) ->
  let mrs := fst (shr_fexp32 m e l) in
  let e1 := snd (shr_fexp32 m e l) in
  e1 = fexp32 (Zdigits2 m + e)
  /\ 0 <= shr_m mrs
  /\ (0 < shr_m mrs -> Zdigits2 (shr_m mrs) + e1 = Zdigits2 m + e)
  /\ (shr_m mrs = 0 -> e1 = -149).
Proof.
  intros Hm He. unfold shr_fexp, shr. repeat rewrite fexp32_eq in *.
  destruct (Z.max (Zdigits2 m + e - 24) (-149) - e) as [|n|n] eqn:Hn;
    cbn [fst snd]; rewrite ?shr_record_of_loc_m; try lia.
  - repeat split; try lia. intros ->. cbn in Hn. lia.
  - rewrite iter_shr_1_m by (rewrite shr_record_of_loc_m; exact Hm).
    rewrite shr_record_of_loc_m.
    assert (Hpow : 0 < 2 ^ Z.pos n) by (apply Z.pow_pos_nonneg; lia).
    split; [lia|]. split; [apply Z.div_pos; lia|]. split.
    + intro Hq.
      assert (Hm0 : 0 < m).
      { destruct (Z.eq_dec m 0) as [->|]; [|lia].
        now rewrite Z.div_0_l in Hq by lia. }
      rewrite !Zdigits2_log2 by assumption.
      rewrite <- Z.shiftr_div_pow2 by lia. rewrite Z.log2_shiftr by lia.
      assert (Z.pos n <= Z.log2 m).
      { apply Z.log2_le_pow2; [lia|].
        destruct (Z.le_gt_cases (2 ^ Z.pos n) m) as [H|H]; [exact H|].
        rewrite Z.div_small in Hq by lia. lia. }
      lia.
    + intro Hq.
      assert (Hlt : m < 2 ^ Z.pos n).
      { destruct (Z.lt_ge_cases m (2 ^ Z.pos n)) as [H|H]; [exact H|].
        pose proof (Z.div_le_lower_bound m (2 ^ Z.pos n) 1 Hpow). lia. }
      assert (Hd : Zdigits2 m <= Z.pos n).
      { destruct (Z.eq_dec m 0) as [->|]; [cbn; lia|].
        rewrite Zdigits2_log2 by lia.
        assert (Z.log2 m < Z.pos n); [|lia].
        apply Z.log2_lt_pow2; lia. }
      lia.
Qed.

(** Rounding yields a binary32 number. *)
Lemma binary_round_aux_wf (s : bool) (m e : Z) (l : location) :
  0 <= m -> e <= fexp32 (Zdigits2 m + e) ->
  F32.wf (round32 s m e l) = true.
Proof.
  intros Hm He. unfold binary_round_aux.
  pose proof (shr_fexp_spec m e l Hm He) as H1. cbv zeta in H1.
  destruct (shr_fexp32 m e l) as [mrs1 e1].
  cbn [fst snd] in H1. destruct H1 as (He1 & Hm1 & Hd1 & Hz1).
  pose proof (round_nearest_even_range (shr_m mrs1) (loc_of_shr_record mrs1))
    as Hr.
  set (m1 := round_nearest_even (shr_m mrs1) (loc_of_shr_record mrs1)) in *.
  assert (Hpre : e1 <= fexp32 (Zdigits2 m1 + e1)).
  { repeat rewrite fexp32_eq in *.
    destruct (Z.eq_dec (shr_m mrs1) 0) as [E|E].
    - specialize (Hz1 E). lia.
    - pose proof (Zdigits2_mono (shr_m mrs1) m1). lia. }
  pose proof (shr_fexp_spec m1 e1 loc_Exact ltac:(lia) Hpre) as H2.
  cbv zeta in H2.
  destruct (shr_fexp32 m1 e1 loc_Exact) as [mrs2 e2].
  cbn [fst snd] in H2. destruct H2 as (He2 & Hm2 & Hd2 & _).
  destruct (shr_m mrs2) as [|m2|m2] eqn:E2; try reflexivity.
  destruct (e2 <=? F32.emax - F32.prec) eqn:Hb; [|reflexivity].
  unfold F32.wf, valid_binary, bounded, canonical_mantissa. rewrite Hb.
  rewrite andb_true_r. apply Z.eqb_eq.
  specialize (Hd2 ltac:(lia)). cbn [Zdigits2] in Hd2. rewrite Hd2. lia.
Qed.

(** A positive mantissa whose exponent is at least the least one is not
    rounded to zero. *)
Lemma binary_round_aux_nonzero (s : bool) (m : positive) (e : Z) (l : location) :
  -149 <= e -> F32.is_zero (round32 s (Zpos m) e l) = false.
Proof.
  assert (Hpos : forall (m : positive) (e : Z) (l : location),
             -149 <= e ->
             0 < shr_m (fst (shr_fexp32 (Zpos m) e l))
             /\ -149 <= snd (shr_fexp32 (Zpos m) e l)).
  { clear. intros m e l He. unfold shr_fexp, shr. cbn [Zdigits2].
    set (d := Z.pos (digits2_pos m)). rewrite fexp32_eq.
    destruct (Z.max (d + e - 24) (-149) - e) as [|n|n] eqn:Hn;
      cbn [fst snd]; try (rewrite shr_record_of_loc_m; split; lia).
    rewrite iter_shr_1_m by (rewrite shr_record_of_loc_m; lia).
    rewrite shr_record_of_loc_m. split; [|lia].
    replace (Z.pos n) with (d - 24) by lia.
    pose proof (digits2_pos_bound m) as [Hlo _]. fold d in Hlo.
    apply Z.lt_le_trans with (m := 2 ^ 23); [lia|].
    apply Z.div_le_lower_bound; [apply Z.pow_pos_nonneg; lia|].
    rewrite <- Z.pow_add_r by lia.
    replace (d - 24 + 23) with (d - 1) by lia. exact Hlo. }
  intro He. unfold binary_round_aux.
  destruct (Hpos m e l He) as [Hm1 He1].
  destruct (shr_fexp32 (Zpos m) e l) as [mrs1 e1].
  cbn [fst snd] in Hm1, He1.
  pose proof (round_nearest_even_range (shr_m mrs1) (loc_of_shr_record mrs1))
    as Hr.
  destruct (round_nearest_even (shr_m mrs1) (loc_of_shr_record mrs1))
    as [|m1|m1]; try lia.
  destruct (Hpos m1 e1 loc_Exact He1) as [Hm2 _].
  destruct (shr_fexp32 (Zpos m1) e1 loc_Exact) as [mrs2 e2].
  cbn [fst] in Hm2.
  destruct (shr_m mrs2) as [|m2|m2]; try lia.
  destruct (e2 <=? F32.emax - F32.prec); reflexivity.
Qed.

Lemma binary_round_wf (s : bool) (m : positive) (e : Z) :
  F32.wf (binary_round F32.prec F32.emax s m e) = true.
Proof.
  unfold binary_round, shl_align.
  destruct (fexp32 (Z.pos (digits2_pos m) + e) - e) as [|k|k] eqn:Hk;
    apply binary_round_aux_wf; try lia; cbn [Zdigits2]; try lia.
  rewrite digits2_pos_iter_xO. repeat rewrite fexp32_eq in *.
  change (Z.neg k) with (- Z.pos k) in Hk. lia.
Qed.

Lemma binary_round_nonzero (s : bool) (m : positive) (e : Z) :
  -149 <= e -> F32.is_zero (binary_round F32.prec F32.emax s m e) = false.
Proof.
  intro He. unfold binary_round, shl_align.
  set (e' := fexp32 (Z.pos (digits2_pos m) + e)).
  assert (He' : -149 <= e') by (unfold e'; rewrite fexp32_eq; lia).
  destruct (e' - e); now apply binary_round_aux_nonzero.
Qed.

Lemma binary_normalize_wf (m e : Z) (s : bool) :
  F32.wf (binary_normalize F32.prec F32.emax m e s) = true.
Proof. destruct m; [reflexivity | apply binary_round_wf..]. Qed.

(** The exponent of a binary32 number is the one of its magnitude. *)
Lemma wf_canonical (s : bool) (m : positive) (e : Z) :
  F32.wf (S754_finite s m e) = true ->
  e = Z.max (Zpos (digits2_pos m) + e - 24) (-149) /\ e <= 104.
Proof.
  unfold F32.wf, valid_binary, bounded, canonical_mantissa. intro H.
  apply andb_true_iff in H. destruct H as [H Hb]. apply Z.eqb_eq in H.
  apply Z.leb_le in Hb. rewrite fexp32_eq in H.
  unfold F32.emax, F32.prec in Hb. lia.
Qed.

(** The quotient of the division has 24 digits when the dividend was
    shifted far enough. *)
Lemma Zdigits2_quotient (m1 m2 s : Z) :
  0 < m1 -> 0 < m2 -> 0 <= s ->
  Zdigits2 m2 + 24 <= Zdigits2 m1 + s ->
  24 <= Zdigits2 (m1 * 2 ^ s / m2).
Proof.
  intros H1 H2 Hs Hd.
  rewrite (Zdigits2_log2 m1), (Zdigits2_log2 m2) in Hd by assumption.
  pose proof (Z.log2_spec m1 H1) as [L1 _].
  pose proof (Z.log2_spec m2 H2) as [_ U2].
  assert (Hq : 2 ^ 23 <= m1 * 2 ^ s / m2).
  { apply Z.div_le_lower_bound; [assumption|].
    apply Z.le_trans with (m := 2 ^ (Z.log2 m1 + s)).
    - apply Z.le_trans with (m := 2 ^ (Z.succ (Z.log2 m2) + 23)).
      + rewrite Z.pow_add_r by (pose proof (Z.log2_nonneg m2); lia).
        assert (0 < 2 ^ 23) by lia. nia.
      + apply Z.pow_le_mono_r; lia.
    - rewrite Z.pow_add_r by (pose proof (Z.log2_nonneg m1); lia).
      assert (0 < 2 ^ s) by (apply Z.pow_pos_nonneg; lia). nia. }
  rewrite Zdigits2_log2 by lia.
  pose proof (Z.log2_le_mono _ _ Hq) as Hl.
  rewrite Z.log2_pow2 in Hl by lia. lia.
Qed.

Lemma SFdiv_core_binary_spec (m1 m2 : positive) (e1 e2 : Z) :
  let '(q, e', _) :=
    SFdiv_core_binary F32.prec F32.emax (Z.pos m1) e1 (Z.pos m2) e2 in
  0 <= q /\ e' <= fexp32 (Zdigits2 q + e').
Proof.
  unfold SFdiv_core_binary.
  set (d1 := Zdigits2 (Z.pos m1)). set (d2 := Zdigits2 (Z.pos m2)).
  set (e' := Z.min (fexp32 (d1 + e1 - (d2 + e2))) (e1 - e2)).
  set (s := e1 - e2 - e').
  assert (Hs : 0 <= s) by (unfold s, e'; lia).
  set (m' := match s with
             | Z.pos _ => Z.shiftl (Z.pos m1) s
             | 0 => Z.pos m1
             | Z.neg _ => 0
             end).
  assert (Hm' : m' = Z.pos m1 * 2 ^ s).
  { unfold m'. destruct s as [|p|p];
      [lia | apply Z.shiftl_mul_pow2; lia | lia]. }
  destruct (Z.div_eucl m' (Z.pos m2)) as [q r] eqn:E.
  assert (Hq : q = m' / Z.pos m2) by (unfold Z.div; now rewrite E).
  assert (Hq0 : 0 <= q).
  { rewrite Hq, Hm'. apply Z.div_pos; [|lia].
    assert (0 < 2 ^ s) by (apply Z.pow_pos_nonneg; lia). nia. }
  split; [exact Hq0|]. rewrite fexp32_eq.
  destruct (Z.le_gt_cases e' (-149)) as [Hlow|Hhigh]; [lia|].
  assert (24 <= Zdigits2 q); [|lia].
  rewrite Hq, Hm'. apply Zdigits2_quotient; try lia.
  fold d1 d2. unfold s. unfold e' in Hhigh |- *.
  repeat rewrite fexp32_eq in *. lia.
Qed.

End Rounding.

(** ** The operations stay within binary32 *)

Lemma f32_add_wf (x y : float32) :
  F32.wf x = true -> F32.wf y = true -> F32.wf (x + y)%f32 = true.
Proof.
  intros Hx Hy.
  destruct x as [[]|[]| |sx mx ex], y as [[]|[]| |sy my ey];
    try reflexivity; try assumption.
  apply binary_normalize_wf.
Qed.

Lemma f32_mul_wf (x y : float32) :
  F32.wf x = true -> F32.wf y = true -> F32.wf (x * y)%f32 = true.
Proof.
  intros Hx Hy.
  destruct x as [sx|sx| |sx mx ex], y as [sy|sy| |sy my ey]; try reflexivity.
  apply binary_round_aux_wf; [lia|].
  apply wf_canonical in Hx, Hy. rewrite fexp32_eq.
  rewrite Zdigits2_log2 by lia.
  pose proof (Zdigits2_log2 (Z.pos mx) ltac:(lia)) as Dx.
  pose proof (Zdigits2_log2 (Z.pos my) ltac:(lia)) as Dy.
  cbn [Zdigits2] in Dx, Dy.
  pose proof (Z.log2_mul_below (Z.pos mx) (Z.pos my) ltac:(lia) ltac:(lia)).
  rewrite Pos2Z.inj_mul. lia.
Qed.

Lemma f32_div_wf (x y : float32) : F32.wf (x / y)%f32 = true.
Proof.
  destruct x as [sx|sx| |sx mx ex], y as [sy|sy| |sy my ey]; try reflexivity.
  unfold F32.div, SFdiv.
  pose proof (SFdiv_core_binary_spec mx my ex ey) as H.
  destruct (SFdiv_core_binary F32.prec F32.emax (Z.pos mx) ex (Z.pos my) ey)
    as [[q e'] l].
  destruct H as [Hq He]. now apply binary_round_aux_wf.
Qed.

Lemma f32_neg_wf_true (x : float32) :
  F32.wf x = true -> F32.wf (- x)%f32 = true.
Proof. now rewrite f32_neg_wf. Qed.

(** Multiplying a binary32 number by 1.0 returns it. *)
Lemma f32_mul_one_r (x : float32) :
  F32.wf x = true -> (x * F32.one)%f32 = x.
Proof.
  destruct x as [s|s| |s m e]; intro Hwf; cbn.
  - now rewrite xorb_false_r.
  - now rewrite xorb_false_r.
  - reflexivity.
  - unfold F32.wf, valid_binary, bounded, canonical_mantissa in Hwf.
    apply andb_true_iff in Hwf. destruct Hwf as [Hc Hb].
    apply Z.eqb_eq in Hc.
    unfold F32.mul, SFmul, F32.one. unfold binary_round_aux, shr_fexp.
    unfold Zdigits2. rewrite digits2_pos_shift23.
    replace (Z.pos (digits2_pos m) + 23 + (e + -23))
      with (Z.pos (digits2_pos m) + e) by lia.
    rewrite Hc.
    replace (e - (e + -23)) with 23 by lia.
    rewrite Pos.mul_comm. cbn [Pos.mul].
    cbn [shr shr_record_of_loc iter_pos shr_1 shr_m loc_of_shr_record
         round_nearest_even orb].
    replace (e + -23 + 23) with e by lia.
    cbn [Zdigits2]. rewrite Hc. rewrite Z.sub_diag. cbn [shr shr_m].
    rewrite Hb. now rewrite xorb_false_r.
Qed.

(** A sum of binary32 numbers is the negative zero only when both are. *)
Lemma f32_add_neg_zero (x y : float32) :
  F32.wf x = true -> F32.wf y = true ->
  (x + y)%f32 = S754_zero true -> x = S754_zero true /\ y = S754_zero true.
Proof.
  intros Hx Hy.
  destruct x as [[]|[]| |sx mx ex], y as [[]|[]| |sy my ey];
    try discriminate; try (now split).
  assert (He : -149 <= Z.min ex ey).
  { apply wf_canonical in Hx, Hy. lia. }
  unfold F32.add, SFadd, binary_normalize. cbv zeta.
  destruct (_ + _) as [|m|m]; try discriminate; intro H.
  - pose proof (binary_round_nonzero false m _ He) as Hz.
    rewrite H in Hz. discriminate Hz.
  - pose proof (binary_round_nonzero true m _ He) as Hz.
    rewrite H in Hz. discriminate Hz.
Qed.

(** Accumulating two numbers from zero associates. *)
Lemma f32_add_from_zero (x y : float32) :
  F32.wf x = true -> F32.wf y = true ->
  (F32.zero + x + y)%f32 = (F32.zero + (x + y))%f32.
Proof.
  intros Hx Hy.
  assert (Hz : forall z, z <> S754_zero true -> (F32.zero + z)%f32 = z).
  { intros [[]|[]| |s m e] Hz; try reflexivity. now elim Hz. }
  destruct x as [[]|[]| |sx mx ex] eqn:Ex.
  - destruct y as [[]|[]| |sy my ey]; reflexivity.
  - destruct y as [[]|[]| |sy my ey]; reflexivity.
  - destruct y as [[]|[]| |sy my ey]; reflexivity.
  - destruct y as [[]|[]| |sy my ey]; reflexivity.
  - reflexivity.
  - rewrite (Hz (S754_finite sx mx ex)) by discriminate.
    symmetry. apply Hz. intro H.
    apply f32_add_neg_zero in H; [|assumption..]. now destruct H.
Qed.

(** ** The vector operations *)

Lemma Vec3_wf_iff (v : Vec3) :
  mgl32.wf v = true <->
  F32.wf (mgl32.X v) = true /\ F32.wf (mgl32.Y v) = true
  /\ F32.wf (mgl32.Z v) = true.
Proof. unfold mgl32.wf. rewrite !andb_true_iff. tauto. Qed.

Lemma Add_wf (v w : Vec3) :
  mgl32.wf v = true -> mgl32.wf w = true -> mgl32.wf (mgl32.Add v w) = true.
Proof.
  rewrite !Vec3_wf_iff. intros (? & ? & ?) (? & ? & ?).
  cbn [mgl32.Add mgl32.X mgl32.Y mgl32.Z]. auto using f32_add_wf.
Qed.

Lemma Mul_wf (v : Vec3) (c : float32) :
  mgl32.wf v = true -> F32.wf c = true -> mgl32.wf (mgl32.Mul v c) = true.
Proof.
  rewrite !Vec3_wf_iff. intros (? & ? & ?) ?.
  cbn [mgl32.Mul mgl32.X mgl32.Y mgl32.Z]. auto using f32_mul_wf.
Qed.

Lemma Add_from_zero (A B : Vec3) :
  mgl32.wf A = true -> mgl32.wf B = true ->
  mgl32.Add (mgl32.Add Spec.zero3 A) B = mgl32.Add Spec.zero3 (mgl32.Add A B).
Proof.
  rewrite !Vec3_wf_iff. intros (? & ? & ?) (? & ? & ?).
  unfold mgl32.Add, Spec.zero3. cbn [mgl32.X mgl32.Y mgl32.Z].
  rewrite !f32_add_from_zero by assumption. reflexivity.
Qed.

(** ** Equations of the methods *)

Lemma exec_bind {A B : Type} (m : Method A) (k : A -> Method B) (o : Object) :
  exec (bind m k) o = exec (k (fst (m o))) (snd (m o)).
Proof. unfold exec, bind. destruct (m o); reflexivity. Qed.

Lemma exec_seq {A B : Type} (m : Method A) (k : Method B) (o : Object) :
  exec (m ;; k) o = exec k (exec m o).
Proof. apply exec_bind. Qed.

Lemma exec_AddForce (force : Vec3) (o : Object) :
  exec (AddForce force) o =
  mkObject (Position o) (Velocity o) (Mass o)
           (mgl32.Add (Forces o) force) (Elasticity o).
Proof. reflexivity. Qed.

(** [Update] is its first half followed by its ground check. *)
Lemma Update_split (dt : float32) (o : Object) :
  Update dt o = (Update_integrate dt ;; Update_collide) o.
Proof. reflexivity. Qed.

Lemma at_check_eq (dt : float32) (o : Object) :
  at_check dt o =
  let acceleration := mgl32.Mul (Forces o) (F32.one / Mass o)%f32 in
  let velocity := mgl32.Add (Velocity o) (mgl32.Mul acceleration dt) in
  mkObject (mgl32.Add (Position o) (mgl32.Mul velocity dt)) velocity
           (Mass o) Spec.zero3 (Elasticity o).
Proof. reflexivity. Qed.

Lemma exec_Update_collide (c : Object) :
  exec Update_collide c = Spec.collide c.
Proof.
  unfold exec, Update_collide, Spec.collide, Spec.groundLevel, bind, load.
  destruct (mgl32.Y (Position c) <? F32.minus_one)%f32; reflexivity.
Qed.

Lemma exec_Update (dt : float32) (o : Object) :
  exec (Update dt) o = Spec.collide (at_check dt o).
Proof.
  unfold exec. rewrite Update_split. apply exec_Update_collide.
Qed.

Lemma exec_AddForce_Update (force : Vec3) (dt : float32) (o : Object) :
  exec (AddForce force ;; Update dt) o
  = Spec.collide (at_check dt (exec (AddForce force) o)).
Proof. rewrite exec_seq. apply exec_Update. Qed.

(** The two outcomes of the ground check. *)
Lemma collide_cases (c : Object) :
  ((mgl32.Y (Position c) <? F32.minus_one)%f32 = false
   /\ Spec.collide c = c)
  \/ ((mgl32.Y (Position c) <? F32.minus_one)%f32 = true
      /\ Spec.collide c
         = mkObject
             (mkVec3 (mgl32.X (Position c)) F32.minus_one
                     (mgl32.Z (Position c)))
             (mkVec3 (mgl32.X (Velocity c))
                     (- mgl32.Y (Velocity c) * Elasticity c)%f32
                     (mgl32.Z (Velocity c)))
             (Mass c) (Forces c) (Elasticity c)).
Proof.
  unfold Spec.collide, Spec.groundLevel.
  destruct (_ <? _)%f32; [right | left]; split; reflexivity.
Qed.

(** ** Bodies of binary32 numbers *)

Lemma wf_Object_iff (o : Object) :
  wf_Object o = true <->
  mgl32.wf (Position o) = true /\ mgl32.wf (Velocity o) = true
  /\ F32.wf (Mass o) = true /\ mgl32.wf (Forces o) = true
  /\ F32.wf (Elasticity o) = true.
Proof. unfold wf_Object. rewrite !andb_true_iff. tauto. Qed.

Lemma NewObject_wf (position velocity : Vec3) (mass elasticity : float32) :
  mgl32.wf position = true -> mgl32.wf velocity = true ->
  F32.wf mass = true -> F32.wf elasticity = true ->
  wf_Object (NewObject position velocity mass elasticity) = true.
Proof. intros. apply wf_Object_iff. cbn. auto. Qed.

Lemma AddForce_wf (force : Vec3) (o : Object) :
  mgl32.wf force = true -> wf_Object o = true ->
  wf_Object (exec (AddForce force) o) = true.
Proof.
  rewrite !wf_Object_iff, exec_AddForce. intros Hf (? & ? & ? & ? & ?).
  cbn [Position Velocity Mass Forces Elasticity].
  repeat split; auto using Add_wf.
Qed.

Lemma at_check_wf (dt : float32) (o : Object) :
  F32.wf dt = true -> wf_Object o = true ->
  wf_Object (at_check dt o) = true.
Proof.
  rewrite !wf_Object_iff, at_check_eq. intros Hdt (? & ? & ? & ? & ?).
  cbn [Position Velocity Mass Forces Elasticity].
  assert (mgl32.wf (mgl32.Add (Velocity o)
            (mgl32.Mul (mgl32.Mul (Forces o) (F32.one / Mass o)%f32) dt))
          = true)
    by auto using Add_wf, Mul_wf, f32_div_wf.
  repeat split; auto using Add_wf, Mul_wf.
Qed.

Lemma Update_wf (dt : float32) (o : Object) :
  F32.wf dt = true -> wf_Object o = true ->
  wf_Object (exec (Update dt) o) = true.
Proof.
  intros Hdt Ho. rewrite exec_Update.
  pose proof (at_check_wf dt o Hdt Ho) as Hc.
  destruct (collide_cases (at_check dt o)) as [[_ ->]|[_ ->]]; [exact Hc|].
  apply wf_Object_iff in Hc. destruct Hc as (Hp & Hv & ? & ? & ?).
  apply Vec3_wf_iff in Hp, Hv. destruct Hp as (? & ? & ?), Hv as (? & ? & ?).
  apply wf_Object_iff. cbn [Position Velocity Mass Forces Elasticity].
  rewrite !Vec3_wf_iff. cbn [mgl32.X mgl32.Y mgl32.Z].
  repeat split; auto using f32_mul_wf, f32_neg_wf_true.
Qed.

(** ** Construction *)

(** C9: for every position, velocity, mass and elasticity, the body that
    [NewObject] returns has the zero vector as its accumulated force. *)
Theorem NewObject_Forces_zero :
  forall (position velocity : Vec3) (mass elasticity : float32),
    Forces (NewObject position velocity mass elasticity)
    = mkVec3 F32.zero F32.zero F32.zero
    /\ exists o, NewObject_ptr position velocity mass elasticity = Some o
                 /\ Forces o = mkVec3 F32.zero F32.zero F32.zero.
Proof.
  intros position velocity mass elasticity. split.
  - reflexivity.
  - eexists. split; reflexivity.
Qed.

(** C1, as stated, fails: [NewObject] called with mass 0, which is not
    positive, returns a body and not [nil]. *)
Lemma NewObject_zero_mass_not_rejected :
  (F32.zero <=? F32.zero)%f32 = true
  /\ NewObject_ptr Spec.zero3 Spec.zero3 F32.zero Inputs.elast <> None.
Proof. split; [reflexivity | discriminate]. Qed.

(** Arithmetic with NaN, and the reciprocal of a zero. *)
Lemma f32_add_nan_r (x : float32) : (x + F32.nan)%f32 = F32.nan.
Proof. now destruct x as [[]|[]| |[] m e]. Qed.

Lemma f32_nan_mul (x : float32) : (F32.nan * x)%f32 = F32.nan.
Proof. now destruct x. Qed.

Lemma f32_zero_mul_reciprocal_of_zero (mass : float32) :
  (mass =? F32.zero)%f32 = true ->
  (F32.zero * (F32.one / mass))%f32 = F32.nan.
Proof.
  intro H. apply f32_eqb_zero in H.
  destruct mass as [[]| | |]; try discriminate H; reflexivity.
Qed.

(** One component of the first half of [Update] for a body of mass zero
    without accumulated force. *)
Lemma massless_component (p v mass dt : float32) :
  (mass =? F32.zero)%f32 = true ->
  let v' := (v + F32.zero * (F32.one / mass) * dt)%f32 in
  v' = F32.nan /\ (p + v' * dt)%f32 = F32.nan.
Proof.
  intros H v'.
  assert (Hv : v' = F32.nan).
  { unfold v'. rewrite (f32_zero_mul_reciprocal_of_zero mass H).
    now rewrite f32_nan_mul, f32_add_nan_r. }
  split; [exact Hv|]. now rewrite Hv, f32_nan_mul, f32_add_nan_r.
Qed.

(** C1, amended: [NewObject] rejects nothing.  For every call, whatever
    the mass, it returns a body that holds the position, velocity, mass
    and elasticity it was given; and [Update] on that body runs its
    steps like on any other, with no check of the mass.  When the mass
    is == 0, [Update] makes every component of the velocity and of the
    position NaN, for every [dt]. *)
Theorem NewObject_accepts_nonpositive_mass :
  forall (position velocity : Vec3) (mass elasticity : float32),
    exists o,
      NewObject_ptr position velocity mass elasticity = Some o
      /\ Mass o = mass
      /\ Position o = position /\ Velocity o = velocity
      /\ Elasticity o = elasticity
      /\ (forall dt, exec (Update dt) o = Spec.update_recip dt o)
      /\ ((mass =? F32.zero)%f32 = true ->
          forall dt,
            Velocity (exec (Update dt) o) = mkVec3 F32.nan F32.nan F32.nan
            /\ Position (exec (Update dt) o)
               = mkVec3 F32.nan F32.nan F32.nan).
Proof.
  intros position velocity mass elasticity.
  exists (NewObject position velocity mass elasticity).
  do 5 (split; [reflexivity|]). split; [intro dt; apply exec_Update|].
  intros Hm dt. rewrite exec_Update, at_check_eq.
  cbn [NewObject Position Velocity Mass Forces Elasticity].
  unfold mgl32.Add, mgl32.Mul. cbn [mgl32.X mgl32.Y mgl32.Z].
  destruct (massless_component (mgl32.X position) (mgl32.X velocity)
              mass dt Hm) as [Hvx Hpx].
  destruct (massless_component (mgl32.Y position) (mgl32.Y velocity)
              mass dt Hm) as [Hvy Hpy].
  destruct (massless_component (mgl32.Z position) (mgl32.Z velocity)
              mass dt Hm) as [Hvz Hpz].
  rewrite Hpx, Hpy, Hpz, Hvx, Hvy, Hvz.
  split; reflexivity.
Qed.

Lemma NewObject_accepts_nonpositive_mass_witness :
  (F32.zero <=? F32.zero)%f32 = true
  /\ Velocity
       (exec (Update timeStep)
             (NewObject Spec.zero3 (Inputs.up Inputs.five) F32.zero
                        Inputs.elast))
     = mkVec3 F32.nan F32.nan F32.nan
  /\ Position
       (exec (Update timeStep)
             (NewObject Spec.zero3 (Inputs.up Inputs.five) F32.zero
                        Inputs.elast))
     = mkVec3 F32.nan F32.nan F32.nan.
Proof.
  split; [reflexivity|].
  destruct (NewObject_accepts_nonpositive_mass
              Spec.zero3 (Inputs.up Inputs.five) F32.zero Inputs.elast)
    as (o & Hptr & _ & _ & _ & _ & _ & Hnan).
  injection Hptr as <-. exact (Hnan eq_refl timeStep).
Defined.

(** With mass 0 and no force, one [Update] turns every coordinate of the
    velocity and of the position into NaN. *)
Example Update_zero_mass :
  exec (Update timeStep) (NewObject Spec.zero3 Spec.zero3 F32.zero Inputs.elast)
  = mkObject (mkVec3 F32.nan F32.nan F32.nan) (mkVec3 F32.nan F32.nan F32.nan)
             F32.zero Spec.zero3 Inputs.elast.
Proof. vm_compute. reflexivity. Qed.

(** ** The steps of [Update] *)

(** C6: after every call of [Update], whatever the state and the step,
    the accumulated force is the zero vector. *)
Theorem Update_resets_Forces :
  forall (dt : float32) (o : Object),
    Forces (exec (Update dt) o) = mkVec3 F32.zero F32.zero F32.zero.
Proof.
  intros dt o. rewrite exec_Update.
  destruct (collide_cases (at_check dt o)) as [[_ ->]|[_ ->]]; reflexivity.
Qed.

(** C8: [AddForce] changes the accumulated force only: position,
    velocity, mass and elasticity stay as they were; and [Update] never
    changes mass or elasticity. *)
Theorem AddForce_Update_frame :
  forall (o : Object),
    (forall force,
        Position (exec (AddForce force) o) = Position o
        /\ Velocity (exec (AddForce force) o) = Velocity o
        /\ Mass (exec (AddForce force) o) = Mass o
        /\ Elasticity (exec (AddForce force) o) = Elasticity o)
    /\ (forall dt,
           Mass (exec (Update dt) o) = Mass o
           /\ Elasticity (exec (Update dt) o) = Elasticity o).
Proof.
  intro o. split.
  - intro force. rewrite exec_AddForce. repeat split.
  - intro dt. rewrite exec_Update.
    destruct (collide_cases (at_check dt o)) as [[_ ->]|[_ ->]];
      split; reflexivity.
Qed.

(** C2, as stated, fails: with the accumulated force (0, 5, 0), mass 3
    and [dt = 1], dividing the force by the mass gives another velocity
    than [Update] does. *)
Lemma Update_is_not_division :
  exec (Update F32.one) Inputs.pushed <> Spec.update F32.one Inputs.pushed.
Proof. vm_compute. discriminate. Qed.

(** C2, amended: for every state and every [dt], [Update] performs, in
    this order: acceleration = accumulatedForce * (1.0 / mass); velocity
    += acceleration * dt; position += velocity * dt, with the velocity
    just updated; accumulatedForce = zero vector; then, if position.y <
    -1.0, position.y = -1.0 and velocity.y = -velocity.y * elasticity. *)
Theorem Update_steps :
  forall (dt : float32) (o : Object),
    exec (Update dt) o = Spec.update_recip dt o.
Proof. intros dt o. apply exec_Update. Qed.

(** The object of [main]: the iteration 119 is the first that ends on the
    ground, with the velocity turned from downward to upward. *)
Example main_object_first_bounce :
  (mgl32.Y (Position (ticks 118 main_object)) <? F32.minus_one)%f32 = false
  /\ (mgl32.Y (Velocity (ticks 118 main_object)) <? F32.zero)%f32 = true
  /\ mgl32.Y (Position (ticks 119 main_object)) = F32.minus_one
  /\ (F32.zero <? mgl32.Y (Velocity (ticks 119 main_object)))%f32 = true.
Proof. vm_compute. repeat split. Qed.

(** ** The ground *)

Lemma Update_not_below (dt : float32) (o : Object) :
  not_below_ground (exec (Update dt) o).
Proof.
  unfold not_below_ground. rewrite exec_Update.
  destruct (collide_cases (at_check dt o)) as [[H ->]|[_ ->]].
  - exact H.
  - reflexivity.
Qed.

Lemma step_is_Update (o o' : Object) :
  step o o' -> exists dt o1, o' = exec (Update dt) o1.
Proof.
  intros [force dt o0]. exists dt, (exec (AddForce force) o0).
  apply exec_seq.
Qed.

Lemma after_ticks_last (o o' : Object) :
  after_ticks o o' -> exists o1, step o1 o'.
Proof. intros [o1 H|o1 o2 _ H]; eauto. Qed.

(** C10, as stated, fails: a body of mass 0.5 at rest at the origin is
    pushed up with the largest finite force for one iteration, which
    makes its velocity and position [+Inf], and pushed down with the same
    force for the next one; its position.y is then NaN, and
    [position.y >= -1.0] is false. *)
Lemma Update_ground_nan :
  after_ticks Inputs.light Inputs.light2
  /\ mgl32.Y (Position Inputs.light2) = F32.nan
  /\ ~ on_or_above_ground Inputs.light2.
Proof.
  split; [|split].
  - apply after_more with (o1 := Inputs.light1).
    + apply after_one. apply step_tick.
    + apply step_tick.
  - vm_compute. reflexivity.
  - unfold on_or_above_ground. vm_compute. discriminate.
Qed.

(** C10, amended: after every call of [Update], position.y is not below
    -1.0: it is greater than or equal to -1.0, or it is NaN.  [AddForce]
    preserves this, so every state that one or more iterations (an
    [AddForce], then an [Update]) end in has it. *)
Theorem Update_never_below_ground :
  (forall dt o,
      not_below_ground (exec (Update dt) o)
      /\ (on_or_above_ground (exec (Update dt) o)
          \/ F32.is_nan (mgl32.Y (Position (exec (Update dt) o))) = true))
  /\ (forall force o,
         not_below_ground o -> not_below_ground (exec (AddForce force) o))
  /\ (forall o o', after_ticks o o' -> not_below_ground o').
Proof.
  split; [|split].
  - intros dt o. split; [apply Update_not_below|].
    destruct (f32_ltb_false _ _ (Update_not_below dt o)) as [H|[H|H]].
    + now left.
    + now right.
    + discriminate H.
  - intros force o H. exact H.
  - intros o o' H. destruct (after_ticks_last _ _ H) as [o1 Hs].
    destruct (step_is_Update _ _ Hs) as (dt & o2 & ->).
    apply Update_not_below.
Qed.

Lemma Update_never_below_ground_witness :
  not_below_ground (exec (AddForce (Inputs.up Inputs.five)) main_object)
  /\ not_below_ground Inputs.light2.
Proof.
  destruct Update_never_below_ground as (_ & Hadd & Hticks). split.
  - apply Hadd. reflexivity.
  - apply (Hticks Inputs.light). apply after_more with (o1 := Inputs.light1).
    + apply after_one. apply step_tick.
    + apply step_tick.
Defined.

(** ** The bounce *)

(** C3, as stated, fails in its elasticity-0 part: a body of mass 0.5
    and elasticity 0 at rest at the origin, under the largest finite
    downward force, reaches the ground check with velocity.y and
    position.y both [-Inf]; the check fires, and the velocity.y it
    leaves is NaN, which is not equal to 0. *)
Lemma bounce_of_infinite_velocity :
  (mgl32.Y (Position (at_check timeStep Inputs.sticky_pushed))
     <? F32.minus_one)%f32 = true
  /\ (Elasticity Inputs.sticky_pushed =? F32.zero)%f32 = true
  /\ mgl32.Y (Velocity (at_check timeStep Inputs.sticky_pushed)) = F32.inf true
  /\ (mgl32.Y (Velocity (exec (Update timeStep) Inputs.sticky_pushed))
        =? F32.zero)%f32 = false.
Proof. vm_compute. repeat split. Qed.

(** C3, amended: for every body whose position.y is below -1.0 when
    [Update] reaches its ground check, [Update] leaves position.y equal
    to -1.0 and velocity.y equal to -v * elasticity, [v] being velocity.y
    at the check.  With elasticity == 0.0 this velocity.y is == 0
    provided [v] is finite; with elasticity == 1.0 it is [-v], for every
    body and [dt] of [float32] values. *)
Theorem Update_bounce :
  forall (dt : float32) (o : Object),
    (mgl32.Y (Position (at_check dt o)) <? F32.minus_one)%f32 = true ->
    let v := mgl32.Y (Velocity (at_check dt o)) in
    let o' := exec (Update dt) o in
    mgl32.Y (Position o') = F32.minus_one
    /\ mgl32.Y (Velocity o') = (- v * Elasticity o)%f32
    /\ ((Elasticity o =? F32.zero)%f32 = true ->
        F32.is_finite v = true ->
        (mgl32.Y (Velocity o') =? F32.zero)%f32 = true)
    /\ ((Elasticity o =? F32.one)%f32 = true ->
        wf_Object o = true -> F32.wf dt = true ->
        mgl32.Y (Velocity o') = (- v)%f32).
Proof.
  intros dt o Hlt v o'.
  assert (Ho' : mgl32.Y (Position o') = F32.minus_one
                /\ mgl32.Y (Velocity o') = (- v * Elasticity o)%f32).
  { unfold o'. rewrite exec_Update.
    destruct (collide_cases (at_check dt o)) as [[H _]|[_ ->]].
    - rewrite Hlt in H. discriminate H.
    - split; reflexivity. }
  destruct Ho' as [Hp Hv].
  split; [exact Hp|]. split; [exact Hv|]. split.
  - intros He Hfin. apply f32_eqb_zero in He.
    rewrite Hv. apply f32_eqb_zero.
    apply f32_finite_mul_zero; [|exact He]. now rewrite f32_neg_finite.
  - intros He Ho Hdt. apply f32_eqb_one in He. rewrite Hv, He.
    apply f32_mul_one_r. rewrite f32_neg_wf.
    pose proof (at_check_wf dt o Hdt Ho) as Hc.
    apply wf_Object_iff in Hc. destruct Hc as (_ & Hvel & _).
    apply Vec3_wf_iff in Hvel. apply Hvel.
Qed.

Lemma Update_bounce_witness :
  mgl32.Y (Position (exec (Update F32.one) Inputs.sinking_sticky))
  = F32.minus_one
  /\ (mgl32.Y (Velocity (exec (Update F32.one) Inputs.sinking_sticky))
        =? F32.zero)%f32 = true
  /\ mgl32.Y (Velocity (exec (Update F32.one) Inputs.sinking_bouncy))
     = F32.one
  /\ mgl32.Y (Velocity (exec (Update timeStep) Inputs.bouncy_pushed))
     = F32.inf false.
Proof.
  destruct (Update_bounce F32.one Inputs.sinking_sticky eq_refl)
    as (Hp & _ & Hzero & _).
  destruct (Update_bounce F32.one Inputs.sinking_bouncy eq_refl)
    as (_ & _ & _ & Hone).
  destruct (Update_bounce timeStep Inputs.bouncy_pushed eq_refl)
    as (_ & _ & _ & Hinf).
  split; [exact Hp|]. split; [exact (Hzero eq_refl eq_refl)|].
  split; [exact (Hone eq_refl eq_refl eq_refl)
         |exact (Hinf eq_refl eq_refl eq_refl)].
Defined.

(** ** Motion without force *)

(** One component of the first half of [Update] when no force is
    accumulated: [r] is the reciprocal of the mass. *)
Lemma forceless_component (p v r dt : float32) :
  F32.is_finite r = true -> F32.is_finite dt = true ->
  let v' := (v + F32.zero * r * dt)%f32 in
  F32.same v' v /\ F32.same (p + v' * dt)%f32 (p + v * dt)%f32.
Proof.
  intros Hr Hdt v'.
  assert (Hv : F32.same v' v).
  { apply f32_add_zero_r. apply f32_zero_mul_finite; [|exact Hdt].
    now apply f32_zero_mul_finite. }
  split; [exact Hv|].
  apply f32_add_same_r. now apply f32_mul_same_l.
Qed.

(** C4, as stated, fails: a body on the ground that moves down at unit
    speed, with no force accumulated and [dt = 0.01], is stopped by the
    ground check: its velocity.y changes from -1 to 0.8 and its
    position.y stays -1 instead of advancing to -1.01. *)
Lemma forceless_Update_hits_ground :
  (F32.zero <? timeStep)%f32 = true
  /\ Forces Inputs.sinking = Spec.zero3
  /\ Velocity (exec (Update timeStep) Inputs.sinking)
     <> Velocity Inputs.sinking
  /\ Position (exec (Update timeStep) Inputs.sinking)
     <> mgl32.Add (Position Inputs.sinking)
                  (mgl32.Mul (Velocity Inputs.sinking) timeStep).
Proof. vm_compute. repeat split; discriminate. Qed.

(** A velocity component that is the negative zero comes out as the
    positive zero: the velocity is the same number, not the same bits. *)
Example forceless_Update_negative_zero :
  mgl32.X (Velocity
             (exec (Update timeStep)
                   (NewObject Spec.zero3 (Inputs.along (- F32.zero)%f32)
                              F32.one Inputs.elast)))
  = F32.zero.
Proof. vm_compute. reflexivity. Qed.

(** C4, amended: for every body and every finite [dt > 0], if the
    accumulated force is the zero vector, [1.0 / mass] is finite and the
    ground check of [Update(dt)] does not fire, then [Update(dt)] leaves
    every component of the velocity the same number and makes the
    position the same numbers as position + velocity * dt (a zero may
    change its sign). *)
Theorem forceless_Update :
  forall (dt : float32) (o : Object),
    (F32.zero <? dt)%f32 = true ->
    F32.is_finite dt = true ->
    Forces o = mkVec3 F32.zero F32.zero F32.zero ->
    F32.is_finite (F32.one / Mass o)%f32 = true ->
    (mgl32.Y (Position (at_check dt o)) <? F32.minus_one)%f32 = false ->
    mgl32.Same (Velocity (exec (Update dt) o)) (Velocity o)
    /\ mgl32.Same (Position (exec (Update dt) o))
                  (mgl32.Add (Position o) (mgl32.Mul (Velocity o) dt)).
Proof.
  intros dt o _ Hdt HF Hr Hair.
  rewrite exec_Update.
  destruct (collide_cases (at_check dt o)) as [[_ ->]|[H _]];
    [|rewrite Hair in H; discriminate H].
  rewrite at_check_eq, HF.
  cbn [Position Velocity mgl32.Add mgl32.Mul mgl32.X mgl32.Y mgl32.Z].
  destruct (forceless_component (mgl32.X (Position o)) (mgl32.X (Velocity o))
              _ dt Hr Hdt) as [Hvx Hpx].
  destruct (forceless_component (mgl32.Y (Position o)) (mgl32.Y (Velocity o))
              _ dt Hr Hdt) as [Hvy Hpy].
  destruct (forceless_component (mgl32.Z (Position o)) (mgl32.Z (Velocity o))
              _ dt Hr Hdt) as [Hvz Hpz].
  repeat split; assumption.
Qed.

Lemma forceless_Update_witness :
  mgl32.Same (Velocity (exec (Update timeStep) main_object))
             (Velocity main_object)
  /\ mgl32.Same (Position (exec (Update timeStep) main_object))
                (mgl32.Add (Position main_object)
                           (mgl32.Mul (Velocity main_object) timeStep)).
Proof.
  apply (forceless_Update timeStep main_object); reflexivity.
Defined.

(** ** One force for one tick *)

(** C5, as stated, fails: two bodies of mass 1 that move down at unit
    speed and differ in their position only, one on the ground and one at
    the origin, are given the zero force for one tick of 0.01: the first
    ends with velocity.y 0.8, the second with velocity.y -1, and only the
    second is velocity + (F / mass) * dt. *)
Lemma velocity_change_depends_on_position :
  (F32.zero <? Mass Inputs.sinking)%f32 = true
  /\ Inputs.sinking = with_Position (Position Inputs.sinking) Inputs.falling
  /\ Velocity (exec (AddForce Spec.zero3 ;; Update timeStep) Inputs.sinking)
     <> Velocity (exec (AddForce Spec.zero3 ;; Update timeStep) Inputs.falling)
  /\ Velocity (exec (AddForce Spec.zero3 ;; Update timeStep) Inputs.sinking)
     <> mgl32.Add (Velocity Inputs.sinking)
          (mgl32.Mul (Spec.Div Spec.zero3 (Mass Inputs.sinking)) timeStep).
Proof. vm_compute. repeat split; discriminate. Qed.

(** C5, amended: for every body with positive mass, [AddForce(F)]
    followed by [Update(dt)] makes velocity.x and velocity.z those of
    [v1 = velocity + ((accumulatedForce + F) * (1.0 / mass)) * dt],
    whatever the position; velocity.y is that of [v1] when the ground
    check does not fire, that is when (position + v1 * dt).y < -1.0 is
    false, and [-v1.y * elasticity] when it fires.  So the new velocity
    depends on the prior position through the ground check only. *)
Theorem AddForce_Update_velocity :
  forall (force : Vec3) (dt : float32) (o : Object),
    (F32.zero <? Mass o)%f32 = true ->
    let v1 := mgl32.Add (Velocity o)
                (mgl32.Mul (mgl32.Mul (mgl32.Add (Forces o) force)
                                      (F32.one / Mass o)%f32) dt) in
    let run o := Velocity (exec (AddForce force ;; Update dt) o) in
    let fires o :=
      (mgl32.Y (mgl32.Add (Position o) (mgl32.Mul v1 dt)) <? F32.minus_one)%f32
    in
    (mgl32.X (run o) = mgl32.X v1 /\ mgl32.Z (run o) = mgl32.Z v1)
    /\ (fires o = false -> run o = v1)
    /\ (fires o = true ->
        mgl32.Y (run o) = (- mgl32.Y v1 * Elasticity o)%f32)
    /\ (forall position,
           let o2 := with_Position position o in
           mgl32.X (run o2) = mgl32.X (run o)
           /\ mgl32.Z (run o2) = mgl32.Z (run o)
           /\ (fires o2 = fires o -> run o2 = run o)).
Proof.
  intros force dt o _ v1 run fires.
  assert (Hself : with_Position (Position o) o = o) by now destruct o.
  assert (Hcases : forall p,
             (fires (with_Position p o) = false
              /\ run (with_Position p o) = v1)
             \/ (fires (with_Position p o) = true
                 /\ run (with_Position p o)
                    = mkVec3 (mgl32.X v1)
                             (- mgl32.Y v1 * Elasticity o)%f32 (mgl32.Z v1))).
  { intro p. unfold run, fires. rewrite exec_AddForce_Update.
    destruct (collide_cases
                (at_check dt (exec (AddForce force) (with_Position p o))))
      as [[H ->]|[H ->]]; [left | right]; split;
      solve [exact H | reflexivity]. }
  pose proof (Hcases (Position o)) as Ho. rewrite Hself in Ho.
  split; [|split; [|split]].
  - destruct Ho as [[_ ->]|[_ ->]]; split; reflexivity.
  - intro H. destruct Ho as [[_ E]|[E _]]; [exact E | congruence].
  - intro H. destruct Ho as [[E _]|[_ ->]]; [congruence | reflexivity].
  - intros p o2. subst o2.
    destruct (Hcases p) as [[F2 E2]|[F2 E2]], Ho as [[F1 E1]|[F1 E1]];
      rewrite E2, E1; repeat split; try reflexivity; intro; congruence.
Qed.

Lemma AddForce_Update_velocity_witness :
  Velocity (exec (AddForce (Inputs.up Inputs.five) ;; Update timeStep)
                 main_object)
  = mgl32.Add (Velocity main_object)
      (mgl32.Mul (mgl32.Mul (mgl32.Add (Forces main_object)
                                       (Inputs.up Inputs.five))
                            (F32.one / Mass main_object)%f32) timeStep)
  /\ mgl32.Y (Velocity (exec (AddForce Spec.zero3 ;; Update timeStep)
                             Inputs.sinking))
     = Inputs.elast
  /\ Velocity (exec (AddForce (Inputs.up Inputs.five) ;; Update timeStep)
                    (with_Position (Inputs.up Inputs.five) main_object))
     = Velocity (exec (AddForce (Inputs.up Inputs.five) ;; Update timeStep)
                      main_object).
Proof.
  destruct (AddForce_Update_velocity (Inputs.up Inputs.five) timeStep
              main_object eq_refl) as (_ & Hair & _ & Hmoved).
  destruct (AddForce_Update_velocity Spec.zero3 timeStep
              Inputs.sinking eq_refl) as (_ & _ & Hfire & _).
  split; [exact (Hair eq_refl)|]. split.
  - rewrite (Hfire eq_refl). reflexivity.
  - destruct (Hmoved (Inputs.up Inputs.five)) as (_ & _ & H).
    exact (H eq_refl).
Defined.

(** ** Accumulating forces *)

(** C7, as stated, fails: on a body that has already accumulated the
    force (2^24, 0, 0), adding (1, 0, 0) twice leaves 2^24, since 2^24 + 1
    rounds to 2^24, while adding (2, 0, 0) once leaves 2^24 + 2; after
    [Update(1)] the velocities differ. *)
Lemma AddForce_twice_differs :
  exec (AddForce (Inputs.along F32.one) ;; AddForce (Inputs.along F32.one) ;;
        Update F32.one) Inputs.loaded
  <> exec (AddForce (mgl32.Add (Inputs.along F32.one) (Inputs.along F32.one)) ;;
           Update F32.one) Inputs.loaded.
Proof. vm_compute. discriminate. Qed.

(** C7, amended: for every body whose accumulated force is the zero
    vector, as [NewObject] and every [Update] leave it, all [float32]
    force vectors A and B and every [dt], [AddForce(A)]; [AddForce(B)];
    [Update(dt)] ends in exactly the state that [AddForce(A+B)];
    [Update(dt)] ends in. *)
Theorem AddForce_additive :
  forall (A B : Vec3) (dt : float32) (o : Object),
    Forces o = mkVec3 F32.zero F32.zero F32.zero ->
    mgl32.wf A = true -> mgl32.wf B = true ->
    exec (AddForce A ;; AddForce B ;; Update dt) o
    = exec (AddForce (mgl32.Add A B) ;; Update dt) o.
Proof.
  intros A B dt o HF HA HB.
  rewrite !exec_seq. f_equal. rewrite !exec_AddForce.
  cbn [Position Velocity Mass Forces Elasticity]. rewrite HF.
  fold Spec.zero3. now rewrite Add_from_zero.
Qed.

Lemma AddForce_additive_witness :
  exec (AddForce (Inputs.up Inputs.five) ;; AddForce (Inputs.along F32.one) ;;
        Update timeStep) main_object
  = exec (AddForce (mgl32.Add (Inputs.up Inputs.five) (Inputs.along F32.one)) ;;
          Update timeStep) main_object.
Proof.
  apply (AddForce_additive (Inputs.up Inputs.five) (Inputs.along F32.one)
           timeStep main_object); reflexivity.
Defined.

(** * The rest of [main.go]: theorems *)

(** ** Iterations of the physics *)

Lemma ticks_succ_r (n : nat) (o : Object) :
  ticks (S n) o = exec tick (ticks n o).
Proof.
  revert o. induction n as [|n IH]; intro o; [reflexivity|].
  change (ticks (S (S n)) o) with (ticks (S n) (exec tick o)).
  rewrite IH. reflexivity.
Qed.

Lemma exec_tick (o : Object) :
  exec tick o
  = exec (Update timeStep)
         (exec (AddForce (mkVec3 F32.zero (gravity * Mass o)%f32 F32.zero)) o).
Proof. reflexivity. Qed.

Lemma tick_Mass_Elasticity (o : Object) :
  Mass (exec tick o) = Mass o /\ Elasticity (exec tick o) = Elasticity o.
Proof.
  rewrite exec_tick, exec_Update.
  destruct (collide_cases
              (at_check timeStep
                 (exec (AddForce (mkVec3 F32.zero (gravity * Mass o)%f32
                                         F32.zero)) o)))
    as [[_ ->]|[_ ->]]; split; reflexivity.
Qed.

Lemma tick_Forces (o : Object) : Forces (exec tick o) = Spec.zero3.
Proof.
  rewrite exec_tick, exec_Update.
  destruct (collide_cases
              (at_check timeStep
                 (exec (AddForce (mkVec3 F32.zero (gravity * Mass o)%f32
                                         F32.zero)) o)))
    as [[_ ->]|[_ ->]]; reflexivity.
Qed.

(** X1: the physics of the frame loop keeps its invariants over any
    number of iterations: mass and elasticity never change, and after
    one or more iterations the accumulated force is the zero vector and
    position.y is not below -1.0. *)
Theorem ticks_invariant :
  forall (n : nat) (o : Object),
    Mass (ticks n o) = Mass o
    /\ Elasticity (ticks n o) = Elasticity o
    /\ ((0 < n)%nat ->
        Forces (ticks n o) = mkVec3 F32.zero F32.zero F32.zero
        /\ not_below_ground (ticks n o)).
Proof.
  intros n o. split; [|split].
  - induction n as [|n IH]; [reflexivity|].
    rewrite ticks_succ_r. now rewrite (proj1 (tick_Mass_Elasticity _)).
  - induction n as [|n IH]; [reflexivity|].
    rewrite ticks_succ_r. now rewrite (proj2 (tick_Mass_Elasticity _)).
  - destruct n as [|n]; [lia|]. intros _. rewrite ticks_succ_r. split.
    + apply tick_Forces.
    + rewrite exec_tick. apply Update_not_below.
Qed.

Lemma ticks_invariant_witness :
  Forces (ticks 3 Inputs.pushed) = mkVec3 F32.zero F32.zero F32.zero
  /\ not_below_ground (ticks 3 Inputs.pushed).
Proof. apply (ticks_invariant 3 Inputs.pushed). lia. Defined.

(** ** Gravity is vertical *)

(** One horizontal component of one iteration: nothing is accumulated,
    the gravity adds a zero, [r] is the reciprocal of the mass. *)
Lemma horizontal_component (p v r : float32) :
  F32.is_finite r = true ->
  let v' := (v + (F32.zero + F32.zero) * r * timeStep)%f32 in
  F32.same v' v /\ F32.same (p + v' * timeStep)%f32 (p + v * timeStep)%f32.
Proof.
  intros Hr. change (F32.zero + F32.zero)%f32 with F32.zero.
  now apply forceless_component.
Qed.

Lemma tick_horizontal (o : Object) :
  Forces o = Spec.zero3 ->
  F32.is_finite (F32.one / Mass o)%f32 = true ->
  (F32.same (mgl32.X (Velocity (exec tick o))) (mgl32.X (Velocity o))
   /\ F32.same (mgl32.Z (Velocity (exec tick o))) (mgl32.Z (Velocity o)))
  /\ (F32.same (mgl32.X (Position (exec tick o)))
               (mgl32.X (Position o) + mgl32.X (Velocity o) * timeStep)%f32
      /\ F32.same (mgl32.Z (Position (exec tick o)))
                  (mgl32.Z (Position o) + mgl32.Z (Velocity o) * timeStep)%f32).
Proof.
  intros HF Hr.
  destruct (horizontal_component (mgl32.X (Position o)) (mgl32.X (Velocity o))
              _ Hr) as [Hvx Hpx].
  destruct (horizontal_component (mgl32.Z (Position o)) (mgl32.Z (Velocity o))
              _ Hr) as [Hvz Hpz].
  rewrite exec_tick, exec_Update.
  destruct (collide_cases
              (at_check timeStep
                 (exec (AddForce (mkVec3 F32.zero (gravity * Mass o)%f32
                                         F32.zero)) o)))
    as [[_ ->]|[_ ->]];
    rewrite at_check_eq, exec_AddForce, HF;
    cbn [Position Velocity Mass Forces Elasticity
         mgl32.Add mgl32.Mul mgl32.X mgl32.Y mgl32.Z Spec.zero3];
    repeat split; assumption.
Qed.

(** X2: gravity acts on y only.  For a body with no accumulated force
    and a finite [1.0 / mass], one iteration of the loop advances
    position.x and position.z by velocity * 0.01, and any number of
    iterations, bounces included, leaves velocity.x and velocity.z the
    same numbers. *)
Theorem ticks_horizontal :
  forall (o : Object),
    Forces o = mkVec3 F32.zero F32.zero F32.zero ->
    F32.is_finite (F32.one / Mass o)%f32 = true ->
    (F32.same (mgl32.X (Position (exec tick o)))
              (mgl32.X (Position o) + mgl32.X (Velocity o) * timeStep)%f32
     /\ F32.same (mgl32.Z (Position (exec tick o)))
                 (mgl32.Z (Position o) + mgl32.Z (Velocity o) * timeStep)%f32)
    /\ forall n,
         F32.same (mgl32.X (Velocity (ticks n o))) (mgl32.X (Velocity o))
         /\ F32.same (mgl32.Z (Velocity (ticks n o))) (mgl32.Z (Velocity o)).
Proof.
  intros o HF Hr. split; [now apply tick_horizontal|].
  intro n. revert o HF Hr. induction n as [|n IH]; intros o HF Hr.
  - split; apply f32_same_refl.
  - change (ticks (S n) o) with (ticks n (exec tick o)).
    destruct (tick_horizontal o HF Hr) as [[Hx Hz] _].
    destruct (IH (exec tick o)) as [Hx' Hz'].
    + apply tick_Forces.
    + now rewrite (proj1 (tick_Mass_Elasticity o)).
    + split; eapply f32_same_trans; eassumption.
Qed.

Lemma ticks_horizontal_witness :
  F32.same (mgl32.X (Velocity (ticks 3 Inputs.falling)))
           (mgl32.X (Velocity Inputs.falling))
  /\ F32.same (mgl32.Z (Velocity (ticks 3 Inputs.falling)))
              (mgl32.Z (Velocity Inputs.falling)).
Proof.
  destruct (ticks_horizontal Inputs.falling eq_refl eq_refl) as [_ H].
  exact (H 3%nat).
Defined.

(** ** The ground check, once more *)

(** X3: the ground check is idempotent: on the state that [Update]
    leaves, running the check again changes nothing. *)
Theorem Update_collide_idempotent :
  forall (dt : float32) (o : Object),
    exec Update_collide (exec (Update dt) o) = exec (Update dt) o.
Proof.
  intros dt o. rewrite exec_Update_collide.
  destruct (collide_cases (exec (Update dt) o)) as [[_ H]|[H _]].
  - exact H.
  - pose proof (Update_not_below dt o) as Hn. unfold not_below_ground in Hn.
    rewrite Hn in H. discriminate H.
Qed.

(** The ground check changes nothing of a body that is not below the
    ground, and only position.y and velocity.y of one that is. *)
Lemma collide_horizontal (c : Object) :
  mgl32.X (Position (exec Update_collide c)) = mgl32.X (Position c)
  /\ mgl32.Z (Position (exec Update_collide c)) = mgl32.Z (Position c)
  /\ mgl32.X (Velocity (exec Update_collide c)) = mgl32.X (Velocity c)
  /\ mgl32.Z (Velocity (exec Update_collide c)) = mgl32.Z (Velocity c).
Proof.
  rewrite exec_Update_collide.
  destruct (collide_cases c) as [[_ ->]|[_ ->]]; repeat split.
Qed.

(** ** The model matrix *)

Lemma eval_ModelMatrix (o : Object) :
  eval ModelMatrix o
  = Translate3D (mgl32.X (Position o)) (mgl32.Y (Position o))
                (mgl32.Z (Position o)).
Proof. reflexivity. Qed.

(** X4: the model matrix shows the position and nothing else: it is a
    pure read of the object, two objects have the same matrix exactly
    when they have the same position, and so [AddForce] does not change
    it. *)
Theorem ModelMatrix_position :
  forall (o1 o2 : Object),
    exec ModelMatrix o1 = o1
    /\ (eval ModelMatrix o1 = eval ModelMatrix o2
        <-> Position o1 = Position o2)
    /\ forall force,
         eval ModelMatrix (exec (AddForce force) o1) = eval ModelMatrix o1.
Proof.
  intros o1 o2. split; [reflexivity|]. split.
  - rewrite !eval_ModelMatrix. split.
    + unfold Translate3D. intro H. injection H as Hx Hy Hz.
      destruct (Position o1), (Position o2). cbn in *. congruence.
    + now intros ->.
  - intro force. reflexivity.
Qed.

(** X5: what is drawn is never below the ground: after every [Update]
    the matrix has 16 elements, its elements 12 and 14 are position.x
    and position.z, and its element 13, the height, is not below
    -1.0. *)
Theorem ModelMatrix_after_Update :
  forall (dt : float32) (o : Object),
    let m := eval ModelMatrix (exec (Update dt) o) in
    List.length m = 16%nat
    /\ List.nth 12 m F32.nan = mgl32.X (Position (exec (Update dt) o))
    /\ List.nth 14 m F32.nan = mgl32.Z (Position (exec (Update dt) o))
    /\ (List.nth 13 m F32.nan <? F32.minus_one)%f32 = false.
Proof.
  intros dt o m. unfold m. rewrite eval_ModelMatrix.
  repeat split. apply Update_not_below.
Qed.

(** ** Running a program *)

Lemma advance_advance (l1 l2 : list Call) (w : World) :
  advance l2 (advance l1 w) = advance (l1 ++ l2) w.
Proof. unfold advance. cbn. now rewrite app_assoc. Qed.

Lemma advance_nil (w : World) : advance [] w = w.
Proof. destruct w. unfold advance. cbn. now rewrite app_nil_r. Qed.

Lemma io_bind_ret {A B : Type} (a : A) (k : A -> IO B) (w : World) :
  io_bind (io_ret a) k w = k a w.
Proof. reflexivity. Qed.

Lemma io_bind_call {B : Type} (c : Call) (k : unit -> IO B) (w : World) :
  io_bind (call c) k w = k tt (advance [c] w).
Proof. reflexivity. Qed.

Lemma io_bind_eq {A B : Type} (m : IO A) (k : A -> IO B) (w : World)
    (r : outcome A) :
  m w = r ->
  io_bind m k w
  = match r with
    | Returns a w' => k a w'
    | Exits code message w' => Exits code message w'
    | Panics message w' => Panics message w'
    | Pending w' => Pending w'
    end.
Proof. unfold io_bind. now intros ->. Qed.

(** ** The shader loader *)

Section Loader.

Variable env : Env.

Lemma io_bind_ask_uint32 {B : Type} (c : Call) (k : Z -> IO B) (w : World) :
  io_bind (ask_uint32 env c) k w
  = k (uint32 (answer_int env (trace w) c)) (advance [c] w).
Proof. reflexivity. Qed.

Lemma io_bind_ask_int32 {B : Type} (c : Call) (k : Z -> IO B) (w : World) :
  io_bind (ask_int32 env c) k w
  = k (int32 (answer_int env (trace w) c)) (advance [c] w).
Proof. reflexivity. Qed.

Lemma io_bind_ask_bytes {B : Type} (c : Call) (k : string -> IO B)
    (w : World) :
  io_bind (ask_bytes env c) k w
  = k (answer_bytes env (trace w) c) (advance [c] w).
Proof. reflexivity. Qed.

Lemma io_bind_ask_error {B : Type} (c : Call) (k : option string -> IO B)
    (w : World) :
  io_bind (ask_error env c) k w
  = k (answer_error env (trace w) c) (advance [c] w).
Proof. reflexivity. Qed.

Lemma io_bind_ReadFile {B : Type} (filename : string)
    (k : string * option string -> IO B) (w : World) :
  io_bind (ReadFile env filename) k w
  = k (answer_bytes env (trace w) (ioutil_ReadFile filename),
       answer_error env (trace w) (ioutil_ReadFile filename))
      (advance [ioutil_ReadFile filename] w).
Proof. reflexivity. Qed.

Lemma make_log_buffer_cases (n : Z) (w : World) :
  (n <= 0 /\ exists message, make_log_buffer n w = Panics message w)
  \/ (0 < n /\ make_log_buffer n w = Returns (Z.to_nat n) w).
Proof.
  unfold make_log_buffer, panic, io_ret.
  destruct (n <? 0) eqn:Hneg.
  - left. apply Z.ltb_lt in Hneg. split; [lia | eauto].
  - apply Z.ltb_ge in Hneg. destruct (n =? 0) eqn:Hz.
    + left. apply Z.eqb_eq in Hz. split; [lia | eauto].
    + right. apply Z.eqb_neq in Hz. split; [lia | reflexivity].
Qed.

(** How [compileShader] ends, by what the driver reports. *)
Lemma compileShader_eq (source : string) (shaderType : Z) (w : World) :
  let shader := created_shader env shaderType w in
  let calls := compile_calls env source shaderType w in
  let logLength := compile_log_length env source shaderType w in
  (compile_status env source shaderType w <> gl.FALSE /\
   compileShader env source shaderType w
   = Returns (shader, None) (advance calls w))
  \/ (compile_status env source shaderType w = gl.FALSE /\ logLength <= 0 /\
      exists message,
        compileShader env source shaderType w
        = Panics message
            (advance (calls ++ [gl_GetShaderiv shader gl.INFO_LOG_LENGTH]) w))
  \/ (compile_status env source shaderType w = gl.FALSE /\ 0 < logLength /\
      compileShader env source shaderType w
      = Returns (0, Some ("failed to compile " ++ source ++ ": "
                            ++ fill (Z.to_nat logLength)
                                 (compile_log env source shaderType w))%string)
          (advance (calls ++ [gl_GetShaderiv shader gl.INFO_LOG_LENGTH;
                              gl_GetShaderInfoLog shader logLength]) w)).
Proof.
  intros shader calls logLength.
  unfold compileShader.
  rewrite io_bind_ask_uint32. fold (created_shader env shaderType w).
  fold shader.
  rewrite io_bind_call, advance_advance.
  rewrite io_bind_call, advance_advance.
  rewrite io_bind_ask_int32, advance_advance. cbn [trace advance app].
  change (int32 (answer_int env _ (gl_GetShaderiv shader gl.COMPILE_STATUS)))
    with (compile_status env source shaderType w).
  fold (advance calls w).
  destruct (compile_status env source shaderType w =? gl.FALSE) eqn:Hs.
  - apply Z.eqb_eq in Hs. right.
    rewrite io_bind_ask_int32, advance_advance.
    change (int32 (answer_int env _ (gl_GetShaderiv shader gl.INFO_LOG_LENGTH)))
      with logLength.
    match goal with
    | |- context [io_bind (make_log_buffer logLength) ?k ?w1] =>
        destruct (make_log_buffer_cases logLength w1) as [[Hn [msg E]]|[Hn E]];
          rewrite (io_bind_eq _ k _ _ E)
    end.
    + left. split; [exact Hs|]. split; [exact Hn|]. now exists msg.
    + right. split; [exact Hs|]. split; [exact Hn|].
      rewrite io_bind_ask_bytes, advance_advance. unfold io_ret.
      cbn [trace advance]. rewrite <- !app_assoc. reflexivity.
  - apply Z.eqb_neq in Hs. left. split; [exact Hs|]. reflexivity.
Qed.

Lemma app_snoc7 {A : Type} (l : list A) (a b c d e f g : A) :
  ((((((l ++ [a]) ++ [b]) ++ [c]) ++ [d]) ++ [e]) ++ [f]) ++ [g]
  = l ++ [a; b; c; d; e; f; g].
Proof. now rewrite <- !app_assoc. Qed.

Ltac all_calls :=
  repeat (apply Forall_app; split); try assumption;
  repeat (apply Forall_cons; [reflexivity|]); try apply Forall_nil.

Lemma compile_calls_loader (source : string) (shaderType : Z) (w : World) :
  Forall (fun c => loader_call c = true)
         (compile_calls env source shaderType w)
  /\ Forall (fun c => is_gl_DeleteShader c = false)
            (compile_calls env source shaderType w).
Proof. unfold compile_calls. split; all_calls. Qed.

(** [compileShader] makes loader calls only, deletes nothing, and
    returns or panics. *)
Lemma compileShader_cases (source : string) (shaderType : Z) (w : World) :
  exists calls,
    Forall (fun c => loader_call c = true) calls
    /\ Forall (fun c => is_gl_DeleteShader c = false) calls
    /\ ((exists shader,
            compileShader env source shaderType w
            = Returns (shader, None) (advance calls w))
        \/ (exists message,
              compileShader env source shaderType w
              = Returns (0, Some message) (advance calls w))
        \/ (exists message,
              compileShader env source shaderType w
              = Panics message (advance calls w))).
Proof.
  destruct (compile_calls_loader source shaderType w) as [Hl Hd].
  destruct (compileShader_eq source shaderType w)
    as [[_ E]|[(_ & _ & m & E)|(_ & _ & E)]];
    rewrite E; eexists; (split; [|split]);
    [ | | left; eexists; reflexivity
    | | | right; right; eexists; reflexivity
    | | | right; left; eexists; reflexivity ];
    all_calls.
Qed.

(** Naming an answer, so that it is not copied into every later call. *)
Ltac name_answer :=
  cbv beta;
  match goal with
  | |- context [uint32 (answer_int env ?t ?c)] =>
      generalize (uint32 (answer_int env t c)); intro
  | |- context [int32 (answer_int env ?t ?c)] =>
      generalize (int32 (answer_int env t c)); intro
  | |- context [answer_bytes env ?t ?c] =>
      generalize (answer_bytes env t c); intro
  end.

(** How [newProgram] ends, and the calls it makes. *)
Lemma newProgram_cases (vertexShaderPath fragmentShaderPath : string)
    (w : World) :
  exists calls,
    Forall (fun c => loader_call c = true) calls
    /\ ((exists program v f pre,
            newProgram env vertexShaderPath fragmentShaderPath w
            = Returns (program, None) (advance calls w)
            /\ calls = pre ++ link_calls program v f
            /\ Forall (fun c => is_gl_DeleteShader c = false) pre)
        \/ (exists message,
              newProgram env vertexShaderPath fragmentShaderPath w
              = Returns (0, Some message) (advance calls w)
              /\ Forall (fun c => is_gl_DeleteShader c = false) calls)
        \/ (exists message,
              newProgram env vertexShaderPath fragmentShaderPath w
              = Panics message (advance calls w)
              /\ Forall (fun c => is_gl_DeleteShader c = false) calls)).
Proof.
  unfold newProgram.
  rewrite io_bind_ReadFile. cbn [fst snd].
  destruct (answer_error env (trace w) (ioutil_ReadFile vertexShaderPath))
    as [e1|] eqn:E1.
  { eexists. split; [|right; left; eexists; split; [reflexivity|]]; all_calls. }
  name_answer.
  rewrite io_bind_ReadFile, advance_advance. cbn [fst snd app].
  destruct (answer_error env _ (ioutil_ReadFile fragmentShaderPath))
    as [e2|] eqn:E2.
  { eexists. split; [|right; left; eexists; split; [reflexivity|]]; all_calls. }
  name_answer.
  match goal with
  | |- context [io_bind (compileShader env ?src ?ty) ?k ?w1] =>
      destruct (compileShader_cases src ty w1)
        as (cv & Hlv & Hdv & [[v Ev]|[[mv Ev]|[mv Ev]]]);
        rewrite (io_bind_eq _ k _ _ Ev); rewrite ?advance_advance;
        cbn [fst snd]; clear Ev
  end.
  2: { eexists. split; [|right; left; eexists; split; [reflexivity|]];
       all_calls. }
  2: { eexists. split; [|right; right; eexists; split; [reflexivity|]];
       all_calls. }
  match goal with
  | |- context [io_bind (compileShader env ?src ?ty) ?k ?w1] =>
      destruct (compileShader_cases src ty w1)
        as (cf & Hlf & Hdf & [[f Ef]|[[mf Ef]|[mf Ef]]]);
        rewrite (io_bind_eq _ k _ _ Ef); rewrite ?advance_advance;
        cbn [fst snd]; clear Ef
  end.
  2: { eexists. split; [|right; left; eexists; split; [reflexivity|]];
       all_calls. }
  2: { eexists. split; [|right; right; eexists; split; [reflexivity|]];
       all_calls. }
  rewrite io_bind_ask_uint32. name_answer. rewrite advance_advance.
  rewrite io_bind_call, advance_advance.
  rewrite io_bind_call, advance_advance.
  rewrite io_bind_call, advance_advance.
  rewrite io_bind_ask_int32. name_answer. rewrite advance_advance.
  match goal with
  | |- context [if ?b then _ else _] => destruct b
  end.
  - rewrite io_bind_ask_int32. name_answer. rewrite advance_advance.
    match goal with
    | |- context [io_bind (make_log_buffer ?n) ?k ?w1] =>
        destruct (make_log_buffer_cases n w1) as [[Hn [msg E]]|[Hn E]];
          rewrite (io_bind_eq _ k _ _ E); clear E
    end.
    + eexists. split; [|right; right; eexists; split; [reflexivity|]];
        all_calls.
    + rewrite io_bind_ask_bytes. name_answer. rewrite advance_advance.
      unfold io_ret.
      eexists. split; [|right; left; eexists; split; [reflexivity|]];
        all_calls.
  - rewrite io_bind_call, advance_advance.
    rewrite io_bind_call, advance_advance. unfold io_ret.
    eexists. split; [|left; do 4 eexists; split; [reflexivity|split]].
    + all_calls.
    + unfold link_calls. apply app_snoc7.
    + all_calls.
Qed.

Lemma length_zeros (n : nat) : String.length (zeros n) = n.
Proof.
  unfold zeros. induction n as [|n IH]; [reflexivity|].
  cbn [List.repeat String.concat]. destruct (List.repeat NUL n) eqn:E.
  - destruct n; [reflexivity | discriminate E].
  - cbn in *. now rewrite IH.
Qed.

Lemma length_take (n : nat) (s : string) :
  (n <= String.length s)%nat -> String.length (take n s) = n.
Proof.
  revert s. induction n as [|n IH]; intros s H; [reflexivity|].
  destruct s as [|c s]; cbn in *; [lia|]. rewrite IH; lia.
Qed.

Lemma length_append (s t : string) :
  String.length (s ++ t)%string = (String.length s + String.length t)%nat.
Proof. induction s as [|c s IH]; cbn; [reflexivity | now rewrite IH]. Qed.

Lemma zeros_S (n : nat) : zeros (S n) = String "000"%char (zeros n).
Proof.
  unfold zeros. cbn [List.repeat String.concat].
  destruct n; reflexivity.
Qed.

Lemma take_zeros (n m : nat) : (n <= m)%nat -> take n (zeros m) = zeros n.
Proof.
  revert m. induction n as [|n IH]; intros m H; [reflexivity|].
  destruct m as [|m]; [lia|]. rewrite !zeros_S. cbn [take].
  rewrite IH; [reflexivity | lia].
Qed.

(** The buffer after the call: what was written, cut at the end of the
    buffer, then the zero bytes that were not overwritten. *)
Lemma take_append_zeros (n m : nat) (written : string) :
  (n <= m)%nat ->
  take n (written ++ zeros m)%string
  = (take n written ++ zeros (n - String.length written))%string.
Proof.
  revert written. induction n as [|n IH]; intros written H; [reflexivity|].
  destruct written as [|c s].
  - cbn [String.append String.length]. rewrite Nat.sub_0_r.
    now apply take_zeros.
  - cbn [String.append String.length take Nat.sub].
    rewrite IH; [reflexivity | lia].
Qed.

Lemma fill_eq (n : nat) (written : string) :
  fill n written
  = (take n written ++ zeros (n - String.length written))%string.
Proof. unfold fill. now apply take_append_zeros. Qed.

(** The log in an error message has the length of the buffer. *)
Lemma length_fill (n : nat) (written : string) :
  String.length (fill n written) = n.
Proof.
  unfold fill. apply length_take. rewrite length_append, length_zeros. lia.
Qed.

(** X6: [compileShader] returns a nil error exactly when the driver
    reports a compile status other than [gl.FALSE]; it then returns the
    name that [gl.CreateShader] answered, after exactly four calls:
    create, source, compile, and the query of the status. *)
Theorem compileShader_nil_error :
  forall (source : string) (shaderType : Z) (w : World),
    (compile_status env source shaderType w <> gl.FALSE ->
     compileShader env source shaderType w
     = Returns (created_shader env shaderType w, None)
               (advance (compile_calls env source shaderType w) w))
    /\ (forall shader w',
          compileShader env source shaderType w = Returns (shader, None) w' ->
          compile_status env source shaderType w <> gl.FALSE).
Proof.
  intros source shaderType w.
  destruct (compileShader_eq source shaderType w)
    as [[Hs E]|[(Hs & _ & m & E)|(Hs & _ & E)]]; rewrite E.
  - split; [reflexivity | intros; exact Hs].
  - split; [intro H; now elim H | discriminate].
  - split; [intro H; now elim H | discriminate].
Qed.

(** X7: when the driver reports a failed compilation with an info log
    of length 0 or less, [compileShader] panics instead of returning an
    error: it takes the address of the first byte of an empty buffer.
    The info log is not asked for. *)
Theorem compileShader_empty_log_panics :
  forall (source : string) (shaderType : Z) (w : World),
    compile_status env source shaderType w = gl.FALSE ->
    compile_log_length env source shaderType w <= 0 ->
    exists message,
      compileShader env source shaderType w
      = Panics message
          (advance (compile_calls env source shaderType w
                    ++ [gl_GetShaderiv (created_shader env shaderType w)
                                       gl.INFO_LOG_LENGTH]) w).
Proof.
  intros source shaderType w Hs Hn.
  destruct (compileShader_eq source shaderType w)
    as [[Hs' _]|[(_ & _ & m & E)|(_ & Hn' & _)]].
  - now elim Hs'.
  - now exists m.
  - lia.
Qed.

(** X8: when the driver reports a failed compilation with an info log
    of positive length [logLength], [compileShader] asks the driver for
    the info log of the shader it created, as its sixth and last call,
    and returns the name 0 and an error whose message is
    "failed to compile ", the source, ": " and the log.  The log is the
    buffer of [logLength] bytes after the call: the first [logLength]
    bytes the driver wrote, followed by zero bytes up to the length of
    the buffer. *)
Theorem compileShader_error_message :
  forall (source : string) (shaderType : Z) (w : World),
    compile_status env source shaderType w = gl.FALSE ->
    0 < compile_log_length env source shaderType w ->
    let shader := created_shader env shaderType w in
    let logLength := compile_log_length env source shaderType w in
    let written := compile_log env source shaderType w in
    let log := fill (Z.to_nat logLength) written in
    compileShader env source shaderType w
    = Returns (0, Some ("failed to compile " ++ source ++ ": " ++ log)%string)
        (advance (compile_calls env source shaderType w
                  ++ [gl_GetShaderiv shader gl.INFO_LOG_LENGTH;
                      gl_GetShaderInfoLog shader logLength]) w)
    /\ log = (take (Z.to_nat logLength) written
              ++ zeros (Z.to_nat logLength - String.length written))%string
    /\ Z.of_nat (String.length log) = logLength.
Proof.
  intros source shaderType w Hs Hn shader logLength written log.
  destruct (compileShader_eq source shaderType w)
    as [[Hs' _]|[(_ & Hn' & _)|(_ & _ & E)]].
  - now elim Hs'.
  - fold logLength in Hn'. fold logLength in Hn. lia.
  - split; [exact E|]. split; [apply fill_eq|].
    unfold log. rewrite length_fill. fold logLength in Hn. lia.
Qed.

(** X9: [newProgram] reads the two files before it makes any call of
    [gl].  If the vertex shader cannot be read it returns the program 0
    and "failed to read vertex shader: " with the error, having made no
    other call; if only the fragment shader cannot be read it returns 0
    and "failed to read fragment shader: " with the error, having read
    the two files and nothing else. *)
Theorem newProgram_read_error :
  forall (vertexShaderPath fragmentShaderPath : string) (w : World),
    (forall err,
        answer_error env (trace w) (ioutil_ReadFile vertexShaderPath)
        = Some err ->
        newProgram env vertexShaderPath fragmentShaderPath w
        = Returns (0, Some ("failed to read vertex shader: " ++ err)%string)
                  (advance [ioutil_ReadFile vertexShaderPath] w))
    /\ (forall err,
          answer_error env (trace w) (ioutil_ReadFile vertexShaderPath)
          = None ->
          answer_error env (trace w ++ [ioutil_ReadFile vertexShaderPath])
                       (ioutil_ReadFile fragmentShaderPath)
          = Some err ->
          newProgram env vertexShaderPath fragmentShaderPath w
          = Returns (0, Some ("failed to read fragment shader: " ++ err)%string)
                    (advance [ioutil_ReadFile vertexShaderPath;
                              ioutil_ReadFile fragmentShaderPath] w)).
Proof.
  intros vertexShaderPath fragmentShaderPath w. split.
  - intros err E. unfold newProgram.
    rewrite io_bind_ReadFile. cbn [fst snd]. now rewrite E.
  - intros err E1 E2. unfold newProgram.
    rewrite io_bind_ReadFile. cbn [fst snd]. rewrite E1.
    rewrite io_bind_ReadFile, advance_advance. cbn [fst snd trace advance app].
    now rewrite E2.
Qed.

(** X10: [newProgram] deletes shaders only when it succeeds.  When it
    returns a nil error, its last calls create and link the returned
    program from two shaders and then delete these two; when it returns
    an error the program is 0 and no shader was deleted, and none was
    when it panics.  It makes loader calls only, and it never ends the
    process. *)
Theorem newProgram_outcome :
  forall (vertexShaderPath fragmentShaderPath : string) (w : World),
    exists calls,
      Forall (fun c => loader_call c = true) calls
      /\ match newProgram env vertexShaderPath fragmentShaderPath w with
         | Returns (program, None) w' =>
             w' = advance calls w
             /\ exists v f pre,
                  calls = pre ++ link_calls program v f
                  /\ Forall (fun c => is_gl_DeleteShader c = false) pre
         | Returns (program, Some _) w' =>
             w' = advance calls w
             /\ program = 0
             /\ Forall (fun c => is_gl_DeleteShader c = false) calls
         | Panics _ w' =>
             w' = advance calls w
             /\ Forall (fun c => is_gl_DeleteShader c = false) calls
         | Exits _ _ _ | Pending _ => False
         end.
Proof.
  intros vertexShaderPath fragmentShaderPath w.
  destruct (newProgram_cases vertexShaderPath fragmentShaderPath w)
    as (calls & Hl
        & [(program & v & f & pre & E & Hc & Hd)|[(m & E & Hd)|(m & E & Hd)]]);
    exists calls; (split; [exact Hl|]); rewrite E.
  - split; [reflexivity|]. now exists v, f, pre.
  - repeat split; assumption.
  - repeat split; assumption.
Qed.

End Loader.

Lemma compileShader_nil_error_witness :
  compileShader Drivers.good "void main() {}" gl.VERTEX_SHADER
                (Drivers.start [])
  = Returns (1, None)
      (advance [ gl_CreateShader gl.VERTEX_SHADER;
                 gl_ShaderSource 1 1 "void main() {}";
                 gl_CompileShader 1;
                 gl_GetShaderiv 1 gl.COMPILE_STATUS ] (Drivers.start [])).
Proof.
  apply (proj1 (compileShader_nil_error Drivers.good "void main() {}"
                  gl.VERTEX_SHADER (Drivers.start []))).
  vm_compute. discriminate.
Defined.

Lemma compileShader_empty_log_panics_witness :
  exists message,
    compileShader (Drivers.refusing 0) "void main() {" gl.FRAGMENT_SHADER
                  (Drivers.start [])
    = Panics message
        (advance [ gl_CreateShader gl.FRAGMENT_SHADER;
                   gl_ShaderSource 2 1 "void main() {";
                   gl_CompileShader 2;
                   gl_GetShaderiv 2 gl.COMPILE_STATUS;
                   gl_GetShaderiv 2 gl.INFO_LOG_LENGTH ] (Drivers.start [])).
Proof.
  apply (compileShader_empty_log_panics (Drivers.refusing 0) "void main() {"
           gl.FRAGMENT_SHADER (Drivers.start [])).
  - reflexivity.
  - vm_compute. discriminate.
Defined.

Lemma compileShader_error_message_witness :
  compileShader (Drivers.refusing 13) "void main() {" gl.FRAGMENT_SHADER
                (Drivers.start [])
  = Returns (0, Some ("failed to compile void main() {: syntax error"
                        ++ NUL)%string)
      (advance [ gl_CreateShader gl.FRAGMENT_SHADER;
                 gl_ShaderSource 2 1 "void main() {";
                 gl_CompileShader 2;
                 gl_GetShaderiv 2 gl.COMPILE_STATUS;
                 gl_GetShaderiv 2 gl.INFO_LOG_LENGTH;
                 gl_GetShaderInfoLog 2 13 ]
               (Drivers.start [])).
Proof.
  refine (proj1 (compileShader_error_message
                   (Drivers.refusing 13) "void main() {"
                   gl.FRAGMENT_SHADER (Drivers.start []) _ _));
    reflexivity.
Defined.

Lemma newProgram_read_error_witness :
  newProgram Drivers.no_file "shaders/vertex_shader.glsl"
             "shaders/fragment_shader.glsl" (Drivers.start [])
  = Returns (0, Some "failed to read vertex shader: no such file"%string)
      (advance [ioutil_ReadFile "shaders/vertex_shader.glsl"]
               (Drivers.start []))
  /\ newProgram Drivers.no_fragment "shaders/vertex_shader.glsl"
                "shaders/fragment_shader.glsl" (Drivers.start [])
     = Returns (0, Some "failed to read fragment shader: no such file"%string)
         (advance [ ioutil_ReadFile "shaders/vertex_shader.glsl";
                    ioutil_ReadFile "shaders/fragment_shader.glsl" ]
                  (Drivers.start [])).
Proof.
  split.
  - apply (proj1 (newProgram_read_error Drivers.no_file
                    "shaders/vertex_shader.glsl" "shaders/fragment_shader.glsl"
                    (Drivers.start []))).
    reflexivity.
  - apply (proj2 (newProgram_read_error Drivers.no_fragment
                    "shaders/vertex_shader.glsl" "shaders/fragment_shader.glsl"
                    (Drivers.start []))); reflexivity.
Defined.

(** ** The frame loop *)

Lemma matrices_app (l1 l2 : list Call) :
  matrices (l1 ++ l2) = matrices l1 ++ matrices l2.
Proof.
  induction l1 as [|c l1 IH]; [reflexivity|].
  destruct c; cbn [app matrices]; rewrite ?IH; reflexivity.
Qed.

Lemma matrices_input_calls (w : Window) : matrices (input_calls w) = [].
Proof. unfold input_calls. now destruct (Action_eqb _ _). Qed.

(** The world after one iteration that found [p], and the world in which
    an iteration waits when nothing is found. *)
Lemma frame_eq (program vao modelLoc : Z) (o : Object) (w : World) :
  let calls := ticker_receive :: input_calls (window w)
               ++ draw_calls program vao modelLoc (exec tick o) in
  frame program vao modelLoc o w
  = match polls w with
    | [] => Pending {| trace := trace w ++ calls;
                       window := input_window (window w);
                       polls := [] |}
    | p :: rest =>
        Returns (exec tick o)
          {| trace := trace w ++ calls ++ [glfw_PollEvents];
             window := PollEvents p (input_window (window w));
             polls := rest |}
    end.
Proof.
  unfold frame, processInput, io_bind, call, GetKey, SetShouldClose,
    glfw_PollEvents_io, io_ret, record, input_calls, input_window, draw_calls.
  cbn [trace window polls].
  destruct (Action_eqb (key_escape (window w)) glfw.Press);
    cbn [trace window polls]; destruct (polls w) as [|p rest];
    f_equal; f_equal; repeat (rewrite <- app_assoc; cbn [app]);
    try reflexivity; destruct (window w); reflexivity.
Qed.

Lemma frames_stop (fuel : nat) (program vao modelLoc : Z) (o : Object)
    (w : World) :
  should_close (window w) = true ->
  frames (S fuel) program vao modelLoc o w
  = Returns o (advance [window_ShouldClose] w).
Proof.
  intro H. cbn [frames]. unfold io_bind, ShouldClose. now rewrite H.
Qed.

Lemma frames_step (fuel : nat) (program vao modelLoc : Z) (o : Object)
    (w : World) (p : Poll) (rest : list Poll) :
  should_close (window w) = false ->
  polls w = p :: rest ->
  frames (S fuel) program vao modelLoc o w
  = frames fuel program vao modelLoc (exec tick o)
      {| trace := trace w
                  ++ window_ShouldClose :: ticker_receive
                     :: input_calls (window w)
                  ++ draw_calls program vao modelLoc (exec tick o)
                  ++ [glfw_PollEvents];
         window := PollEvents p (input_window (window w));
         polls := rest |}.
Proof.
  intros Hc Hp. cbn [frames]. unfold io_bind at 1. unfold ShouldClose.
  rewrite Hc. unfold io_bind at 1. rewrite frame_eq.
  cbn [polls record window trace]. rewrite Hp.
  f_equal. f_equal. cbn [app].
  repeat (rewrite <- app_assoc; cbn [app]). reflexivity.
Qed.

Lemma frames_wait (fuel : nat) (program vao modelLoc : Z) (o : Object)
    (w : World) :
  should_close (window w) = false ->
  polls w = [] ->
  exists w', frames (S fuel) program vao modelLoc o w = Pending w'
             /\ polls w' = [].
Proof.
  intros Hc Hp. cbn [frames]. unfold io_bind at 1. unfold ShouldClose.
  rewrite Hc. unfold io_bind at 1. rewrite frame_eq.
  cbn [polls record window trace]. rewrite Hp. eauto.
Qed.

Lemma map_seq_shift {A : Type} (f : nat -> A) (n : nat) :
  map f (seq 2 n) = map (fun i => f (S i)) (seq 1 n).
Proof. rewrite <- seq_shift, map_map. reflexivity. Qed.

(** What the loop has done when it returns. *)
Lemma frames_spec (program vao modelLoc : Z) (fuel : nat) :
  forall (o : Object) (w : World),
    match frames fuel program vao modelLoc o w with
    | Returns o' w' =>
        exists n calls,
          o' = ticks n o
          /\ trace w' = trace w ++ calls
          /\ matrices calls
             = map (fun i => eval ModelMatrix (ticks i o)) (seq 1 n)
          /\ polls w = firstn n (polls w) ++ polls w'
          /\ List.length (firstn n (polls w)) = n
          /\ should_close (window w') = true
    | Pending w' => (List.length (polls w) < fuel)%nat -> polls w' = []
    | Exits _ _ _ | Panics _ _ => False
    end.
Proof.
  induction fuel as [|fuel IH]; intros o w; [cbn; lia|].
  destruct (should_close (window w)) eqn:Hc.
  - rewrite frames_stop by exact Hc.
    exists 0%nat, [window_ShouldClose]. cbn. repeat split; auto.
  - destruct (polls w) as [|p rest] eqn:Hp.
    + destruct (frames_wait fuel program vao modelLoc o w Hc Hp)
        as (w' & -> & Hw'). intros _. exact Hw'.
    + rewrite (frames_step fuel program vao modelLoc o w p rest Hc Hp).
      match goal with
      | |- context [frames fuel program vao modelLoc ?o1 ?w1] =>
          specialize (IH o1 w1);
            destruct (frames fuel program vao modelLoc o1 w1)
              as [o' w'| | |w']
      end; cbn [polls trace] in IH; try exact IH.
      * destruct IH as (n & calls & Ho & Ht & Hm & Hpl & Hlen & Hsc).
        exists (S n). eexists.
        split; [exact Ho|]. split.
        { rewrite Ht, <- app_assoc. reflexivity. }
        split.
        { rewrite matrices_app. cbn [matrices].
          rewrite matrices_app, matrices_input_calls.
          cbn [app draw_calls matrices]. rewrite Hm.
          cbn [seq map]. f_equal.
          exact (eq_sym (map_seq_shift (fun i => eval ModelMatrix (ticks i o)) n)). }
        split; [cbn [firstn app]; now rewrite <- Hpl|].
        split; [cbn [firstn List.length]; now rewrite Hlen | exact Hsc].
      * intro H. apply IH. cbn [List.length] in H. lia.
Qed.

Lemma frame_loop_cases (program vao modelLoc : Z) (o : Object) (w : World) :
  match frame_loop program vao modelLoc o w with
  | Returns o' w' =>
      exists n calls,
        o' = ticks n o
        /\ trace w' = trace w ++ calls
        /\ matrices calls
           = map (fun i => eval ModelMatrix (ticks i o)) (seq 1 n)
        /\ polls w = firstn n (polls w) ++ polls w'
        /\ List.length (firstn n (polls w)) = n
        /\ should_close (window w') = true
  | Pending w' => polls w' = []
  | Exits _ _ _ | Panics _ _ => False
  end.
Proof.
  unfold frame_loop.
  pose proof (frames_spec program vao modelLoc (S (List.length (polls w))) o w)
    as H.
  destruct (frames (S (List.length (polls w))) program vao modelLoc o w);
    try exact H.
  apply H. lia.
Qed.

(** X11: drawing is coupled one to one to the physics.  When the loop
    returns, it has run some number [n] of iterations: the object has
    gone through exactly [n] ticks, [n] findings of the event pump were
    used, the matrices handed to the shader are, in order, the model
    matrices after 1, 2, ..., [n] ticks, and a close was requested.  The
    loop never ends the process and never panics; it is left waiting
    only when the findings are used up. *)
Theorem frame_loop_outcome :
  forall (program vao modelLoc : Z) (o : Object) (w : World),
    match frame_loop program vao modelLoc o w with
    | Returns o' w' =>
        exists n calls,
          o' = ticks n o
          /\ trace w' = trace w ++ calls
          /\ matrices calls
             = map (fun i => eval ModelMatrix (ticks i o)) (seq 1 n)
          /\ polls w = firstn n (polls w) ++ polls w'
          /\ List.length (firstn n (polls w)) = n
          /\ should_close (window w') = true
    | Pending w' => polls w' = []
    | Exits _ _ _ | Panics _ _ => False
    end.
Proof. exact frame_loop_cases. Qed.

Lemma frames_quiet (program vao modelLoc : Z) (fuel : nat)
    (qs more : list Poll) :
  forallb quiet qs = true ->
  forall (o : Object) (w : World),
    calm (window w) ->
    polls w = qs ++ more ->
    exists w1,
      frames (List.length qs + fuel) program vao modelLoc o w
      = frames fuel program vao modelLoc (ticks (List.length qs) o) w1
      /\ calm (window w1) /\ polls w1 = more.
Proof.
  induction qs as [|p qs IH]; intros Hq o w Hw Hp.
  - exists w. auto.
  - cbn [forallb] in Hq. apply andb_true_iff in Hq. destruct Hq as [Hq Hqs].
    unfold quiet in Hq. apply andb_true_iff in Hq.
    destruct Hq as [Hk Hcl]. apply negb_true_iff in Hk, Hcl.
    destruct Hw as [Hc He].
    cbn [List.length Nat.add].
    rewrite (frames_step _ program vao modelLoc o w p (qs ++ more) Hc Hp).
    match goal with
    | |- context [frames _ program vao modelLoc ?o1 ?w1] =>
        destruct (IH Hqs o1 w1) as (w2 & E & Hw2 & Hp2)
    end.
    + cbn [window]. unfold input_window. rewrite He. unfold PollEvents.
      split; cbn [should_close key_escape]; [now rewrite Hc, Hcl | exact Hk].
    + reflexivity.
    + exists w2. cbn [ticks]. auto.
Qed.

Lemma ticks_add (n m : nat) (o : Object) :
  ticks (n + m) o = ticks m (ticks n o).
Proof.
  revert o. induction n as [|n IH]; intro o; [reflexivity|].
  cbn [Nat.add ticks]. apply IH.
Qed.

(** X12: how the loop ends.  From a window that is not closing, after
    [k] findings with nothing to report: if the next finding is a
    request to close the window, the loop returns after [k + 1]
    iterations; if it is the exit key held down, the loop runs one
    iteration more, with its physics and its drawing, and returns after
    [k + 2] iterations, having used the finding after it. *)
Theorem frame_loop_ends :
  forall (program vao modelLoc : Z) (o : Object) (w : World)
         (qs : list Poll) (p late : Poll) (rest : list Poll),
    should_close (window w) = false ->
    Action_eqb (key_escape (window w)) glfw.Press = false ->
    forallb quiet qs = true ->
    (poll_close p = true ->
     polls w = qs ++ p :: rest ->
     exists w',
       frame_loop program vao modelLoc o w
       = Returns (ticks (List.length qs + 1) o) w'
       /\ polls w' = rest)
    /\ (poll_close p = false ->
        Action_eqb (poll_escape p) glfw.Press = true ->
        polls w = qs ++ p :: late :: rest ->
        exists w',
          frame_loop program vao modelLoc o w
          = Returns (ticks (List.length qs + 2) o) w'
          /\ polls w' = rest).
Proof.
  intros program vao modelLoc o w qs p late rest Hc He Hq. split.
  - intros Hcl Hp. unfold frame_loop. rewrite Hp.
    replace (S (List.length (qs ++ p :: rest)))
      with (List.length qs + S (S (List.length rest)))%nat
      by (rewrite length_app; cbn [List.length]; lia).
    destruct (frames_quiet program vao modelLoc (S (S (List.length rest)))
                qs (p :: rest) Hq o w (conj Hc He) Hp)
      as (w1 & -> & [Hc1 He1] & Hp1).
    rewrite (frames_step _ program vao modelLoc _ w1 p rest Hc1 Hp1).
    rewrite frames_stop.
    + eexists. split.
      { rewrite ticks_add. cbn [ticks]. reflexivity. }
      reflexivity.
    + cbn [window]. unfold PollEvents. cbn [should_close].
      rewrite Hcl. apply orb_true_r.
  - intros Hcl Hk Hp. unfold frame_loop. rewrite Hp.
    replace (S (List.length (qs ++ p :: late :: rest)))
      with (List.length qs + S (S (S (List.length rest))))%nat
      by (rewrite length_app; cbn [List.length]; lia).
    destruct (frames_quiet program vao modelLoc
                (S (S (S (List.length rest))))
                qs (p :: late :: rest) Hq o w (conj Hc He) Hp)
      as (w1 & -> & [Hc1 He1] & Hp1).
    rewrite (frames_step _ program vao modelLoc _ w1 p (late :: rest)
               Hc1 Hp1).
    rewrite (frames_step _ program vao modelLoc _ _ late rest).
    + rewrite frames_stop.
      * eexists. split.
        { rewrite ticks_add. cbn [ticks]. reflexivity. }
        reflexivity.
      * cbn [window]. unfold PollEvents, input_window.
        cbn [should_close key_escape]. rewrite Hk.
        cbn [should_close]. reflexivity.
    + cbn [window]. unfold PollEvents, input_window. rewrite He1.
      cbn [should_close]. now rewrite Hc1, Hcl.
    + reflexivity.
Qed.

Lemma frame_loop_ends_witness :
  (exists w',
      frame_loop 3 1 0 main_object
        (Drivers.start [Drivers.nothing; Drivers.nothing; Drivers.close])
      = Returns (ticks 3 main_object) w'
      /\ polls w' = [])
  /\ (exists w',
         frame_loop 3 1 0 main_object
           (Drivers.start [Drivers.nothing; Drivers.nothing; Drivers.escape;
                           Drivers.nothing])
         = Returns (ticks 4 main_object) w'
         /\ polls w' = []).
Proof.
  destruct (frame_loop_ends 3 1 0 main_object
              (Drivers.start [Drivers.nothing; Drivers.nothing; Drivers.close])
              [Drivers.nothing; Drivers.nothing] Drivers.close Drivers.nothing
              [] eq_refl eq_refl eq_refl) as [Hclose _].
  destruct (frame_loop_ends 3 1 0 main_object
              (Drivers.start [Drivers.nothing; Drivers.nothing; Drivers.escape;
                              Drivers.nothing])
              [Drivers.nothing; Drivers.nothing] Drivers.escape Drivers.nothing
              [] eq_refl eq_refl eq_refl) as [_ Hescape].
  split.
  - exact (Hclose eq_refl eq_refl).
  - exact (Hescape eq_refl eq_refl eq_refl).
Defined.

(** ** [main] *)

Lemma defer_call {A : Type} (c : Call) (body : IO A) (w : World) :
  defer (call c) body w
  = match body w with
    | Returns a w' => Returns a (advance [c] w')
    | Panics message w' => Panics message (advance [c] w')
    | Exits code message w' => Exits code message w'
    | Pending w' => Pending w'
    end.
Proof. unfold defer, call. destruct (body w); reflexivity. Qed.

Lemma loader_call_startup (c : Call) :
  loader_call c = true ->
  is_glfw_Terminate c = false /\ is_ticker_receive c = false.
Proof. destruct c; try discriminate; intros _; split; reflexivity. Qed.

Lemma Forall_loader_startup (calls : list Call) :
  Forall (fun c => loader_call c = true) calls ->
  Forall (fun c => is_glfw_Terminate c = false /\ is_ticker_receive c = false)
         calls.
Proof. apply Forall_impl. exact loader_call_startup. Qed.

Lemma matrices_loader (calls : list Call) :
  Forall (fun c => loader_call c = true) calls -> matrices calls = [].
Proof.
  induction 1 as [|c calls Hc _ IH]; [reflexivity|].
  destruct c; try discriminate Hc; exact IH.
Qed.

Section Main.

Variable env : Env.

Ltac name_answer :=
  cbv beta;
  match goal with
  | |- context [uint32 (answer_int env ?t ?c)] =>
      generalize (uint32 (answer_int env t c)); intro
  | |- context [int32 (answer_int env ?t ?c)] =>
      generalize (int32 (answer_int env t c)); intro
  | |- context [answer_bytes env ?t ?c] =>
      generalize (answer_bytes env t c); intro
  end.

Ltac startup_calls :=
  repeat (apply Forall_app; split);
  try (apply Forall_loader_startup; assumption);
  repeat (apply Forall_cons; [split; reflexivity|]); try apply Forall_nil.

(** X13: how [main] ends.  It ends the process only with status 1, and
    only during the start-up: before the first receive from the ticker,
    and without the deferred [glfw.Terminate].  A panic of the shader
    loader happens before the loop as well, and [glfw.Terminate] is then
    the last call.  When [main] returns, the object has gone through as
    many ticks from the initial state as matrices were handed to the
    shader, and the last three calls delete the vertex array and the
    buffer and terminate [glfw]. *)
Theorem main_outcome :
  forall (w : World),
    match main env w with
    | Exits code _ w' =>
        code = 1
        /\ exists calls,
             w' = advance calls w
             /\ Forall (fun c => is_glfw_Terminate c = false
                                 /\ is_ticker_receive c = false) calls
    | Panics _ w' =>
        exists calls,
          w' = advance (calls ++ [glfw_Terminate]) w
          /\ Forall (fun c => is_glfw_Terminate c = false
                              /\ is_ticker_receive c = false) calls
    | Returns o w' =>
        exists n calls vao vbo,
          o = ticks n main_object
          /\ trace w'
             = trace w ++ calls ++ [ gl_DeleteVertexArrays 1 vao;
                                     gl_DeleteBuffers 1 vbo; glfw_Terminate ]
          /\ matrices calls
             = map (fun i => eval ModelMatrix (ticks i main_object)) (seq 1 n)
    | Pending w' => polls w' = []
    end.
Proof.
  intro w. unfold main.
  rewrite io_bind_ask_error.
  destruct (answer_error env (trace w) glfw_Init) as [e|].
  { unfold Fatalln. split; [reflexivity|]. eexists. split; [reflexivity|].
    startup_calls. }
  rewrite defer_call.
  do 5 rewrite io_bind_call, ?advance_advance.
  rewrite io_bind_ask_error, advance_advance.
  destruct (answer_error env _ (glfw_CreateWindow _ _ _)) as [e|].
  { unfold Fatalln. split; [reflexivity|]. eexists. split; [reflexivity|].
    startup_calls. }
  rewrite io_bind_call, advance_advance.
  rewrite io_bind_ask_error, advance_advance.
  destruct (answer_error env _ gl_Init) as [e|].
  { unfold Fatalln. split; [reflexivity|]. eexists. split; [reflexivity|].
    startup_calls. }
  rewrite io_bind_ask_bytes. name_answer. rewrite advance_advance.
  rewrite io_bind_call, advance_advance.
  rewrite io_bind_ask_uint32. name_answer. rewrite advance_advance.
  rewrite io_bind_call, advance_advance.
  rewrite io_bind_ask_uint32. name_answer. rewrite advance_advance.
  do 4 rewrite io_bind_call, advance_advance.
  match goal with
  | |- context [io_bind (newProgram env ?v ?f) ?k ?w1] =>
      destruct (newProgram_cases env v f w1)
        as (lc & Hl
            & [(program & sv & sf & pre & E & _ & _)
              |[(m & E & _)|(m & E & _)]]);
        rewrite (io_bind_eq _ k _ _ E); rewrite ?advance_advance;
        cbn [fst snd]; clear E
  end.
  2: { unfold Fatalln. split; [reflexivity|]. eexists. split; [reflexivity|].
       startup_calls. }
  2: { eexists. split;
         [apply (f_equal (fun l => advance l w)); apply app_assoc|].
       startup_calls. }
  rewrite io_bind_call, advance_advance.
  rewrite io_bind_ask_int32. name_answer. rewrite advance_advance.
  rewrite io_bind_call, advance_advance.
  match goal with
  | |- context [io_bind (frame_loop ?p ?v ?l ?o) ?k ?w1] =>
      pose proof (frame_loop_cases p v l o w1) as Hloop;
        unfold io_bind at 1;
        destruct (frame_loop p v l o w1) as [o' w'| | |w']
  end; try contradiction.
  - destruct Hloop as (n & calls & Ho & Ht & Hm & _).
    rewrite io_bind_call, io_bind_call, !advance_advance. unfold io_ret.
    match type of Ht with
    | _ = trace (advance ?P w) ++ calls => set (before := P) in *
    end.
    assert (Hpre : matrices before = []).
    { unfold before. rewrite !matrices_app, (matrices_loader lc Hl). reflexivity. }
    exists n, (before ++ calls). do 2 eexists.
    split; [exact Ho|]. split.
    + cbn [trace advance]. rewrite Ht. cbn [trace advance].
      rewrite <- !app_assoc. cbn [app]. reflexivity.
    + rewrite matrices_app, Hpre. exact Hm.
  - exact Hloop.
Qed.

End Main.

(** A run with a driver under which everything succeeds, the exit key
    being found pressed by the second event pump: three iterations, and
    76 calls in all. *)
Example main_runs :
  match main Drivers.good
             (Drivers.start [Drivers.nothing; Drivers.escape; Drivers.nothing])
  with
  | Returns o w' =>
      o = ticks 3 main_object /\ List.length (trace w') = 76%nat
      /\ polls w' = []
  | _ => False
  end.
Proof. vm_compute. repeat split. Qed.

(** A run that cannot open a window. *)
Example main_without_window :
  main Drivers.no_window (Drivers.start [])
  = Exits 1 "failed to create window: no display"
      (advance [ glfw_Init;
                 glfw_WindowHint glfw.Resizable glfw.False;
                 glfw_WindowHint glfw.ContextVersionMajor 4;
                 glfw_WindowHint glfw.ContextVersionMinor 1;
                 glfw_WindowHint glfw.OpenGLProfile glfw.OpenGLCoreProfile;
                 glfw_WindowHint glfw.OpenGLForwardCompatible glfw.True;
                 glfw_CreateWindow 800 600 "3D Physics Simulation" ]
               (Drivers.start [])).
Proof. vm_compute. reflexivity. Qed.
